(** * LS-SVR solver for the fractional Bratu equation: model and properties

    Shallow embedding of [src/PINN/lssvr_bratu.py].

    Numbers.  The program computes in IEEE binary64.  The model idealises a
    finite float as the real number it denotes ([R] of the Standard
    Library): rounding, overflow and underflow are not modelled, and a float
    operation whose result is not a finite real (a NumPy division by zero,
    a negative base raised to a fractional power) has no faithful value
    here.  The one exception is the underflow of [np.exp] in the kernel
    matrix, which decides whether its entries are positive: it is kept in
    [np_exp] and [build_kernel_matrices_underflow].  Python exceptions are
    modelled: every function that can raise returns a [result].

    Arrays.  A one-dimensional array is a [list R]; a two-dimensional array
    is the list of its rows.

    Library code.  [scipy.special.gamma] and [scipy.optimize.fsolve] are not
    part of the repository; they are parameters of the development. *)

From Stdlib Require Import String DecimalString.
From Stdlib Require Import Reals Lra Lia List Arith ZArith Bool.
Import ListNotations.

Open Scope R_scope.

(* ------------------------------------------------------------------ *)
(** ** Exceptions *)

Inductive exn : Type :=
| ZeroDivisionError
| IndexError
| ValueError.

Inductive result (A : Type) : Type :=
| ok (a : A)
| raise (e : exn).

Arguments ok {A} a.
Arguments raise {A} e.

Definition bind {A B : Type} (m : result A) (k : A -> result B) : result B :=
  match m with
  | ok a => k a
  | raise e => raise e
  end.

Notation "x <- m ;; k" := (bind m (fun x => k))
  (at level 61, m at next level, right associativity).

(** A [for] loop whose body may raise: the state is threaded through the
    elements of [l] from left to right and the first exception aborts. *)
Fixpoint for_each {A S : Type} (l : list A) (body : S -> A -> result S) (s : S)
  : result S :=
  match l with
  | [] => ok s
  | a :: l' => s' <- body s a ;; for_each l' body s'
  end.

(** [range(a, b)] for natural numbers. *)
Definition range (a b : nat) : list nat := seq a (b - a).

(* ------------------------------------------------------------------ *)
(** ** Arrays *)

Abbreviation vec := (list R).
Abbreviation mat := (list (list R)).

(** [np.zeros(n)] *)
Definition zeros (n : nat) : vec := repeat 0 n.

(** [a[i]] for a non-negative index: [IndexError] out of range. *)
Definition getitem (a : vec) (i : nat) : result R :=
  match nth_error a i with
  | Some v => ok v
  | None => raise IndexError
  end.

Fixpoint upd (a : vec) (i : nat) (v : R) : vec :=
  match a, i with
  | [], _ => []
  | _ :: a', O => v :: a'
  | x :: a', S i' => x :: upd a' i' v
  end.

(** [a[i] = v] for a non-negative index: [IndexError] out of range. *)
Definition setitem (a : vec) (i : nat) (v : R) : result vec :=
  if (i <? length a)%nat then ok (upd a i v) else raise IndexError.

(** Inner product of a row with a vector of the same length. *)
Fixpoint dot (r a : vec) : R :=
  match r, a with
  | x :: r', y :: a' => x * y + dot r' a'
  | _, _ => 0
  end.

(** [M @ a] for a two-dimensional [M] and a one-dimensional [a]:
    [ValueError] when the number of columns differs from [len(a)].  (A
    matrix without rows carries no column count in this representation, so
    the check passes for it.) *)
Definition matvec (M : mat) (a : vec) : result vec :=
  if forallb (fun r => (length r =? length a)%nat) M
  then ok (map (fun r => dot r a) M)
  else raise ValueError.

(** [M[:, i]] of a matrix whose rows all have more than [i] entries. *)
Definition column (M : mat) (i : nat) : vec := map (fun r => nth i r 0) M.

(* ------------------------------------------------------------------ *)
(** ** Powers *)

(** Python's [k ** y] for a non-negative integer [k] and a float [y]:
    [x ** 0.0] is [1.0] for every [x], including [0 ** 0.0];
    [0 ** y] is [0.0] for positive [y] and raises [ZeroDivisionError] for
    negative [y].  The [OverflowError] Python raises when the power leaves
    the range of the floats is not modelled: it needs an exponent far above
    1 (an order far below 0), and cannot occur for an exponent in [0,1],
    where [k ** y <= k]. *)
Definition int_pow (k : nat) (y : R) : result R :=
  if Req_dec_T y 0 then ok 1
  else match k with
       | O => if Rlt_dec y 0 then raise ZeroDivisionError else ok 0
       | S _ => ok (Rpower (INR k) y)
       end.

(** [h ** a] on floats, where it is a finite real: [1] for [a = 0],
    [exp (a * ln h)] for positive [h], [0] for [h = 0 < a].  The remaining
    cases are not finite reals in the program (no exception is raised there;
    the value [0] of the model is arbitrary). *)
Definition real_pow (h a : R) : R :=
  if Req_dec_T a 0 then 1
  else if Rlt_dec 0 h then Rpower h a
  else 0.

(** The weight [(i - j) ** (1 - alpha) - (i - j - 1) ** (1 - alpha)] of line
    35, for [k = i - j >= 1]. *)
Definition weight (k : nat) (alpha : R) : result R :=
  p <- int_pow k (1 - alpha) ;;
  q <- int_pow (k - 1) (1 - alpha) ;;
  ok (p - q).

Section Bratu.

(** [scipy.special.gamma] *)
Variable Gamma : R -> R.

(* ------------------------------------------------------------------ *)
(** ** L1 scheme for the Caputo fractional derivative *)

(** The grid spacing of lines 26-29.  Without a grid the division is
    Python's, which raises for [n = 1]; with a grid it is NumPy's, which
    does not raise ([x_grid[-1]] and [x_grid[0]] raise on an empty grid).
    For [n = 1] with a grid the program's quotient is not a finite float;
    it is then used by no entry of the result, the outer loop being
    empty. *)
Definition spacing (n : nat) (x_grid : option vec) : result R :=
  match x_grid with
  | None =>
      if (n =? 1)%nat then raise ZeroDivisionError
      else ok (1 / (INR n - 1))
  | Some x =>
      match x with
      | [] => raise IndexError
      | x0 :: _ => ok ((last x 0 - x0) / (INR n - 1))
      end
  end.

(** The inner loop of lines 33-36: [s] accumulated over [j in range(i)].
    The loop is only run for [i < len(u)], so [u[j + 1]] and [u[j]] are in
    range and the reads cannot raise. *)
Definition inner_sum (u : vec) (alpha : R) (i : nat) : result R :=
  for_each (range 0 i)
    (fun s j =>
       diff <- weight (i - j) alpha ;;
       ok (s + (nth (j + 1) u 0 - nth j u 0) * diff))
    0.

(** The coefficient [coeff] is a real number here.  In the program it is
    [inf] or [nan] when the spacing is zero, negative with a fractional
    order, or too small for [1 / h ** alpha] to be finite, and the entries
    of index at least 1 are then not finite either: the values of the model
    are those of the program for a positive spacing of normal size. *)
Definition L1_caputo (u_on_grid : vec) (alpha : R) (x_grid : option vec)
  : result vec :=
  let u := u_on_grid in
  let n := length u in
  h <- spacing n x_grid ;;
  let coeff := 1 / (Gamma (2 - alpha) * real_pow h alpha) in
  for_each (range 1 n)
    (fun D i =>
       s <- inner_sum u alpha i ;;
       setitem D i (coeff * s))
    (zeros n).

(* ------------------------------------------------------------------ *)
(** ** RBF kernel and kernel matrices *)

Definition rbf_kernel (x y gamma : R) : R := exp (- gamma * (x - y) ^ 2).

(** [np.exp(-gamma * (a[:, None] - b[None, :]) ** 2)]: row [j], column [i]
    holds the kernel of [a[j]] and [b[i]].  The exponential is the real
    one; [kernel_matrix_underflow] below keeps the underflow of [np.exp]. *)
Definition pairwise (a b : vec) (gamma : R) : mat :=
  map (fun aj => map (fun bi => exp (- gamma * (aj - bi) ^ 2)) b) a.

(** [M[:, i] = c]: [IndexError] when [M] has no column [i], [ValueError]
    when [c] does not have as many entries as [M] has rows. *)
Definition set_column (M : mat) (i : nat) (c : vec) : result mat :=
  if negb (forallb (fun r => (i <? length r)%nat) M) then raise IndexError
  else if (length c =? length M)%nat
  then ok (map (fun rv => upd (fst rv) i (snd rv)) (combine M c))
  else raise ValueError.

Definition build_kernel_matrices (x_grid : vec) (alpha gamma : R)
  : result (mat * mat) :=
  let x := x_grid in
  let N := length x in
  let K_mat := pairwise x x gamma in
  D_alpha_K <-
    for_each (range 0 N)
      (fun D i =>
         let u_col := column K_mat i in
         c <- L1_caputo u_col alpha (Some x) ;;
         set_column D i c)
      (repeat (zeros N) N) ;;
  ok (K_mat, D_alpha_K).

(* ------------------------------------------------------------------ *)
(** ** Collocation residual *)

(** [N] is a length in every call of the program; for [N = 0] the
    assignment [F[0] = u[0]] raises before [N - 1] is used as an index. *)
Definition lssvr_bratu_residual (alpha : vec) (K_mat D_alpha_K : mat)
    (lam : R) (N : nat) : result vec :=
  u <- matvec K_mat alpha ;;
  D_alpha_u <- matvec D_alpha_K alpha ;;
  let F := zeros N in
  u0 <- getitem u 0 ;;
  F <- setitem F 0 u0 ;;
  uN <- getitem u (N - 1) ;;
  F <- setitem F (N - 1) uN ;;
  for_each (range 1 (N - 1))
    (fun F i =>
       d <- getitem D_alpha_u i ;;
       ui <- getitem u i ;;
       setitem F i (d + lam * exp ui))
    F.

(* ------------------------------------------------------------------ *)
(** ** Solver driver *)

(** [np.linspace(start, stop, num)] *)
Definition linspace (start stop : R) (num : nat) : vec :=
  match num with
  | O => []
  | S O => [start]
  | _ => map (fun i => start + INR i * ((stop - start) / (INR num - 1)))
             (seq 0 num)
  end.

(** The information dictionary returned by [fsolve]; the program ignores
    it. *)
Variable infodict : Type.

(** [scipy.optimize.fsolve(func, x0, full_output=True)]: the solution, the
    information dictionary, the status [ier] and the message.  An exception
    raised by [func] propagates. *)
Variable fsolve :
  (vec -> result vec) -> vec -> result (vec * infodict * Z * string).

(** [str(ier)] *)
Definition str_of_int (z : Z) : string := NilZero.string_of_int (Z.to_int z).

Definition warning (ier : Z) (msg : string) : string :=
  ("Warning: fsolve did not converge (ier=" ++ str_of_int ier ++ "): "
     ++ msg)%string.

(** What [solve_lssvr_bratu] returns: [x_grid], [alpha], [K_mat],
    [D_alpha_K], [wall_time]. *)
Record solution : Type := Solution {
  sol_x_grid : vec;
  sol_alpha : vec;
  sol_K_mat : mat;
  sol_D_alpha_K : mat;
  sol_wall_time : R
}.

(** The two readings [t0], [t1] of the clock are inputs of the model, and
    the lines printed to the standard output are returned next to the
    value.  [N] is a non-negative integer here; for a negative [N] the
    program stops in [np.linspace] with a [ValueError], which is outside
    the model. *)
Definition solve_lssvr_bratu (t0 t1 : R) (alpha_param lam : R) (N : nat)
    (gamma : R) (x_grid : option vec) : result (solution * list string) :=
  let (x_grid, N) :=
    match x_grid with
    | None => (linspace 0 1 N, N)
    | Some g => (g, length g)
    end in
  KD <- build_kernel_matrices x_grid alpha_param gamma ;;
  let (K_mat, D_alpha_K) := KD in
  let alpha0 := zeros N in
  r <- fsolve (fun a => lssvr_bratu_residual a K_mat D_alpha_K lam N) alpha0 ;;
  let '(alpha, _, ier, msg) := r in
  let wall_time := t1 - t0 in
  let printed := if (ier =? 1)%Z then [] else [warning ier msg] in
  ok (Solution x_grid alpha K_mat D_alpha_K wall_time, printed).

(* ------------------------------------------------------------------ *)
(** ** Predictor *)

Definition lssvr_predict (x_eval x_colloc alpha : vec) (gamma : R)
  : result vec :=
  let K_eval := pairwise x_eval x_colloc gamma in
  matvec K_eval alpha.

End Bratu.

(* ------------------------------------------------------------------ *)
(** ** Kernel matrices with the underflow of [np.exp] *)

(** [np.exp] returns [0.0] when the exponential is at most [2^-1075], half
    the smallest positive float, that is when its argument is at most
    [- 1075 * ln 2] (about [-745.13]). *)
Definition exp_underflow : R := 1075 * ln 2.

(** [np.exp] with its underflow to zero; the rounding of the other values
    is not modelled. *)
Definition np_exp (z : R) : R :=
  if Rle_dec z (- exp_underflow) then 0 else exp z.

(** Line 86 with the underflow kept. *)
Definition kernel_matrix_underflow (x : vec) (gamma : R) : mat :=
  map (fun xj => map (fun xi => np_exp (- gamma * (xj - xi) ^ 2)) x) x.

Section Underflow.

Variable Gamma : R -> R.

(** [build_kernel_matrices] with the underflow of [np.exp] kept in
    [K_mat]. *)
Definition build_kernel_matrices_underflow (x_grid : vec) (alpha gamma : R)
  : result (mat * mat) :=
  let x := x_grid in
  let N := length x in
  let K_mat := kernel_matrix_underflow x gamma in
  D_alpha_K <-
    for_each (range 0 N)
      (fun D i =>
         let u_col := column K_mat i in
         c <- L1_caputo Gamma u_col alpha (Some x) ;;
         set_column D i c)
      (repeat (zeros N) N) ;;
  ok (K_mat, D_alpha_K).

End Underflow.

(* ------------------------------------------------------------------ *)
(** ** Reference solution of the classical problem *)

Section Reference.

(** [scipy.optimize.fsolve(func, x0)] without [full_output]: the solution
    array alone.  A scalar [x0] is passed to [func] as an array of one
    element. *)
Variable fsolve_root : (vec -> result vec) -> vec -> result vec.

Definition bratu_analytical_theta (lam : R) : result R :=
  let eq := fun th : vec =>
              ok (map (fun t => t - sqrt (2 * lam) * cosh (t / 4)) th) in
  r <- fsolve_root eq [2] ;;
  getitem r 0.

Definition bratu_exact_u (x : vec) (lam : R) : result vec :=
  th <- bratu_analytical_theta lam ;;
  ok (map (fun xi =>
             - 2 * ln (cosh ((xi - 1 / 2) * th / 2) / cosh (th / 4)))
          x).

End Reference.

(* ------------------------------------------------------------------ *)
(** ** Error metrics *)

Fixpoint sub_elementwise (a b : vec) : vec :=
  match a, b with
  | x :: a', y :: b' => (x - y) :: sub_elementwise a' b'
  | _, _ => []
  end.

(** [a - b] on one-dimensional arrays: elementwise for equal lengths, an
    array of one element is broadcast against the other, and any other pair
    of lengths raises [ValueError]. *)
Definition broadcast_sub (a b : vec) : result vec :=
  if (length a =? length b)%nat then ok (sub_elementwise a b)
  else match a, b with
       | [x], _ => ok (map (fun y => x - y) b)
       | _, [y] => ok (map (fun x => x - y) a)
       | _, _ => raise ValueError
       end.

(** [np.linalg.norm(v)] of a one-dimensional array. *)
Definition norm (v : vec) : R := sqrt (dot v v).

(** [np.max(v)]: [ValueError] on an empty array. *)
Definition np_max (v : vec) : result R :=
  match v with
  | [] => raise ValueError
  | x :: l => ok (fold_left Rmax l x)
  end.

Definition rel_l2_error (u_pred u_exact : vec) : result R :=
  d <- broadcast_sub u_pred u_exact ;;
  ok (norm d / (norm u_exact + / 10 ^ 14)).

Definition max_error (u_pred u_exact : vec) : result R :=
  d <- broadcast_sub u_pred u_exact ;;
  np_max (map Rabs d).

(* ================================================================== *)
(** * Vocabulary of the properties *)

(** ** Sums, powers and weights *)

(** [sum_below f n] is [f 0 + ... + f (n - 1)], added from the left as the
    accumulating loop does. *)
Fixpoint sum_below (f : nat -> R) (n : nat) : R :=
  match n with
  | O => 0
  | S m => sum_below f m + f m
  end.

(** The value the program's [k ** y] has where it does not raise; in
    particular [0 ** 0.0 = 1.0]. *)
Definition pow_value (k : nat) (y : R) : R :=
  if Req_dec_T y 0 then 1
  else match k with
       | O => 0
       | S _ => Rpower (INR k) y
       end.

(** The weight the program computes for [k = i - j], with its powers. *)
Definition L1_weight (k : nat) (alpha : R) : R :=
  pow_value k (1 - alpha) - pow_value (k - 1) (1 - alpha).

(** [k^y] for a natural number [k] and a real exponent, following the
    specification: [0^y = 0], the value for every positive exponent and
    the one that makes the weight [w(1)] equal to [1] at [alpha = 1], and
    [k^y = exp (y * ln k)] for [k >= 1]. *)
Definition nat_power (k : nat) (y : R) : R :=
  match k with
  | O => 0
  | S _ => Rpower (INR k) y
  end.

(** The term of index [j] in the sum for [D[i]]. *)
Definition L1_term (u : vec) (alpha : R) (i j : nat) : R :=
  (nth (j + 1) u 0 - nth j u 0) * L1_weight (i - j) alpha.

(** ** Grids and matrices *)

(** The samples are taken on a grid of [n] points with uniform spacing [h]:
    either the default grid of [L1_caputo] on the unit interval, or an
    explicit grid [x] with [x[i] = x[0] + i * h]. *)
Definition uniform_grid (n : nat) (h : R) (x_grid : option vec) : Prop :=
  match x_grid with
  | None => h = 1 / (INR n - 1)
  | Some x =>
      length x = n /\
      forall i, (i < n)%nat -> nth i x 0 = nth 0 x 0 + INR i * h
  end.

(** The spacing [L1_caputo] computes from a non-empty explicit grid. *)
Definition grid_spacing (x : vec) : R :=
  (last x 0 - hd 0 x) / (INR (length x) - 1).

(** [M] has [r] rows of [c] entries each. *)
Definition shape (r c : nat) (M : mat) : Prop :=
  length M = r /\ Forall (fun row => length row = c) M.

(** [M[j, i]] *)
Definition entry (M : mat) (j i : nat) : R := nth i (nth j M []) 0.

(** [(M * a)[i]]: the inner product of row [i] of [M] with [a]. *)
Definition matvec_entry (M : mat) (a : vec) (i : nat) : R :=
  dot (nth i M []) a.

(** ** Closed forms of the results *)

Section Closed_forms.

Variable Gamma : R -> R.

(** [c = 1 / (Gamma(2 - alpha) * h^alpha)] *)
Definition L1_coeff (alpha h : R) : R :=
  1 / (Gamma (2 - alpha) * real_pow h alpha).

(** The entry of index [i] of the result: [0] at the left endpoint. *)
Definition L1_entry (u : vec) (alpha h : R) (i : nat) : R :=
  match i with
  | O => 0
  | S _ => L1_coeff alpha h * sum_below (L1_term u alpha i) i
  end.

(** The vector [L1_caputo] returns for the samples [u] and the spacing
    [h], when it raises nothing. *)
Definition L1_values (u : vec) (alpha h : R) : vec :=
  map (L1_entry u alpha h) (seq 0 (length u)).

(** The matrix [D_alpha_K] the builder returns when it raises nothing:
    column [i] is the L1 scheme applied to column [i] of the kernel
    matrix. *)
Definition D_alpha_K_values (x : vec) (alpha gamma : R) : mat :=
  let N := length x in
  let K_mat := pairwise x x gamma in
  map (fun j =>
         map (fun i =>
                L1_entry (column K_mat i) alpha (grid_spacing x) j)
             (seq 0 N))
      (seq 0 N).

End Closed_forms.

(** The grid the solve entry point works on: the explicit one when given,
    [np.linspace(0, 1, N)] otherwise. *)
Definition solve_grid (N : nat) (x_grid : option vec) : vec :=
  match x_grid with
  | None => linspace 0 1 N
  | Some g => g
  end.

(** What the solve entry point does after [fsolve] has returned. *)
Definition solve_finish {infodict : Type} (t0 t1 : R) (x : vec) (K D : mat)
    (r : vec * infodict * Z * string) : solution * list string :=
  let '(alpha, _, ier, msg) := r in
  (Solution x alpha K D (t1 - t0),
   if (ier =? 1)%Z then [] else [warning ier msg]).

(** The outputs of a solve other than the wall time, with the printed
    lines. *)
Definition without_wall_time (r : result (solution * list string))
  : result (vec * vec * mat * mat * list string) :=
  match r with
  | ok (s, printed) =>
      ok (sol_x_grid s, sol_alpha s, sol_K_mat s, sol_D_alpha_K s, printed)
  | raise e => raise e
  end.

(** ** Vectors *)

(** [a * u + b * v], entry by entry. *)
Fixpoint lin_comb (a : R) (u : vec) (b : R) (v : vec) : vec :=
  match u, v with
  | x :: u', y :: v' => (a * x + b * y) :: lin_comb a u' b v'
  | _, _ => []
  end.

(** The sum of the absolute values of the entries. *)
Fixpoint abs_sum (v : vec) : R :=
  match v with
  | [] => 0
  | x :: v' => Rabs x + abs_sum v'
  end.

(** The value of the kernel expansion with centres [x_colloc] and
    coefficients [alpha] at the point [x]. *)
Definition expansion (x_colloc alpha : vec) (gamma x : R) : R :=
  dot (map (fun xi => rbf_kernel x xi gamma) x_colloc) alpha.

(** The closed-form reference curve for the shape parameter [th]. *)
Definition exact_curve (th x : R) : R :=
  - 2 * ln (cosh ((x - 1 / 2) * th / 2) / cosh (th / 4)).

(** The vector the residual returns for [N >= 1] on inputs of matching
    shapes. *)
Definition residual_values (alpha : vec) (K D : mat) (lam : R) (N : nat)
  : vec :=
  map (fun i =>
         if ((i =? 0) || (i =? N - 1))%nat
         then matvec_entry K alpha i
         else matvec_entry D alpha i + lam * exp (matvec_entry K alpha i))
      (seq 0 N).

(** ** Instances of the library parameters *)

(** A stand-in for [scipy.special.gamma] that is right at the argument 1,
    the only one at which the witnesses below evaluate it. *)
Definition gamma_at_1 (x : R) : R := 1.

(** A stand-in for [scipy.special.gamma] that is right at the argument
    3/2: [Gamma(3/2) = sqrt(pi) / 2]. *)
Definition gamma_at_3_2 (x : R) : R := sqrt PI / 2.

(** A root finder that returns its starting point. *)
Definition fsolve_root_stub : (vec -> result vec) -> vec -> result vec :=
  fun _ x0 => ok x0.

(** A solver that returns its initial guess with the given status and
    message, whatever the function is. *)
Definition fsolve_stub (ier : Z) (msg : string)
  : (vec -> result vec) -> vec -> result (vec * unit * Z * string) :=
  fun _ x0 => ok (x0, tt, ier, msg).


(* ================================================================== *)
(** * Properties *)

(** ** Loops and arrays *)

Lemma bind_ok {A B : Type} (a : A) (k : A -> result B) :
  bind (ok a) k = k a.
Proof. reflexivity. Qed.

Lemma length_upd (a : vec) (i : nat) (v : R) : length (upd a i v) = length a.
Proof.
  revert i; induction a as [|x a IH]; intros [|i]; simpl; auto.
Qed.

Lemma nth_error_upd_same (a : vec) (i : nat) (v : R) :
  (i < length a)%nat -> nth_error (upd a i v) i = Some v.
Proof.
  revert i; induction a as [|x a IH]; intros [|i] H; simpl in *;
    try lia; auto.
  apply IH; lia.
Qed.

Lemma nth_error_upd_other (a : vec) (i j : nat) (v : R) :
  i <> j -> nth_error (upd a i v) j = nth_error a j.
Proof.
  revert i j; induction a as [|x a IH]; intros [|i] [|j] H; simpl;
    auto; try congruence.
Qed.

Lemma setitem_ok (a : vec) (i : nat) (v : R) :
  (i < length a)%nat -> setitem a i v = ok (upd a i v).
Proof.
  intros H; unfold setitem.
  destruct (Nat.ltb_spec i (length a)); [reflexivity | lia].
Qed.

Lemma length_zeros (n : nat) : length (zeros n) = n.
Proof. apply repeat_length. Qed.

Lemma nth_error_zeros (n i : nat) :
  (i < n)%nat -> nth_error (zeros n) i = Some 0.
Proof. intros H; unfold zeros; now apply nth_error_repeat. Qed.

(** A loop that stores [g i] at index [i] for every [i] of an interval
    within the array fills exactly that interval. *)
Lemma for_each_fill (g : nat -> R) (body : vec -> nat -> result vec) :
  forall (len a : nat) (D0 : vec),
    (forall D i, (a <= i < a + len)%nat -> body D i = setitem D i (g i)) ->
    (a + len <= length D0)%nat ->
    exists D,
      for_each (seq a len) body D0 = ok D /\
      length D = length D0 /\
      (forall i, (a <= i < a + len)%nat -> nth_error D i = Some (g i)) /\
      (forall i, ~ (a <= i < a + len)%nat -> nth_error D i = nth_error D0 i).
Proof.
  induction len as [|len IH]; intros a D0 Hbody Hlen.
  - exists D0; simpl; repeat split; auto. intros i Hi; lia.
  - simpl. rewrite Hbody by lia. rewrite setitem_ok by lia. simpl.
    destruct (IH (S a) (upd D0 a (g a))) as (D & HD & HL & Hin & Hout).
    + intros D' i Hi; apply Hbody; lia.
    + rewrite length_upd; lia.
    + exists D; repeat split.
      * exact HD.
      * now rewrite HL, length_upd.
      * intros i Hi. destruct (Nat.eq_dec i a) as [->|Hne].
        -- rewrite Hout by lia. apply nth_error_upd_same; lia.
        -- apply Hin; lia.
      * intros i Hi. rewrite Hout by lia. apply nth_error_upd_other; lia.
Qed.

Lemma vec_ext (a b : vec) :
  length a = length b ->
  (forall i, (i < length a)%nat -> nth_error a i = nth_error b i) ->
  a = b.
Proof.
  revert b; induction a as [|x a IH]; intros [|y b] HL H; simpl in *;
    try discriminate; auto.
  f_equal.
  - specialize (H 0%nat ltac:(lia)); simpl in H; congruence.
  - apply IH; [lia|]. intros i Hi. apply (H (S i)); lia.
Qed.

(** ** Sums *)

Lemma sum_below_sum_f_R0 (f : nat -> R) (n : nat) :
  sum_below f (S n) = sum_f_R0 f n.
Proof.
  induction n as [|n IH].
  - simpl; lra.
  - change (sum_below f (S (S n))) with (sum_below f (S n) + f (S n)).
    rewrite IH; reflexivity.
Qed.

Lemma sum_below_ext (f g : nat -> R) (n : nat) :
  (forall j, (j < n)%nat -> f j = g j) -> sum_below f n = sum_below g n.
Proof.
  induction n as [|n IH]; intros H; simpl; [reflexivity|].
  rewrite IH, H; auto.
Qed.

Lemma sum_below_zero (f : nat -> R) (n : nat) :
  (forall j, (j < n)%nat -> f j = 0) -> sum_below f n = 0.
Proof.
  induction n as [|n IH]; intros H; simpl; [reflexivity|].
  rewrite IH, H; auto; lra.
Qed.

(** An accumulating loop over [range(n)] computes the sum of its terms. *)
Lemma for_each_sum (f : nat -> R) (body : R -> nat -> result R) (n : nat) :
  (forall s j, (j < n)%nat -> body s j = ok (s + f j)) ->
  for_each (seq 0 n) body 0 = ok (sum_below f n).
Proof.
  intros Hbody.
  assert (G : forall len a s,
             (a + len <= n)%nat ->
             s = sum_below f a ->
             for_each (seq a len) body s = ok (sum_below f (a + len))).
  { induction len as [|len IH]; intros a s Hle ->; simpl.
    - now rewrite Nat.add_0_r.
    - rewrite Hbody by lia. simpl.
      rewrite (IH (S a)); [| lia | reflexivity].
      now rewrite Nat.add_succ_r. }
  apply (G n 0%nat 0); [lia | reflexivity].
Qed.

(** ** Powers and weights *)

Lemma int_pow_ok (k : nat) (y : R) : 0 <= y -> int_pow k y = ok (pow_value k y).
Proof.
  intros Hy; unfold int_pow, pow_value.
  destruct (Req_dec_T y 0); [reflexivity|].
  destruct k; [|reflexivity].
  destruct (Rlt_dec y 0); [lra | reflexivity].
Qed.

Lemma weight_ok (k : nat) (alpha : R) :
  alpha <= 1 -> weight k alpha = ok (L1_weight k alpha).
Proof.
  intros Ha; unfold weight.
  rewrite !int_pow_ok by lra. reflexivity.
Qed.

(** At [alpha = 1] every power is [x ** 0.0 = 1.0], so every weight is
    [0]. *)
Lemma L1_weight_alpha_1 (k : nat) : L1_weight k 1 = 0.
Proof.
  unfold L1_weight, pow_value.
  destruct (Req_dec_T (1 - 1) 0); lra.
Qed.

(** ** The L1 scheme in closed form *)

Section L1.

Variable Gamma : R -> R.

Lemma inner_sum_ok (u : vec) (alpha : R) (i : nat) :
  alpha <= 1 ->
  inner_sum u alpha i = ok (sum_below (L1_term u alpha i) i).
Proof.
  intros Ha; unfold inner_sum, range. rewrite Nat.sub_0_r.
  apply for_each_sum. intros s j Hj.
  rewrite weight_ok by exact Ha. reflexivity.
Qed.

Lemma length_L1_values (u : vec) (alpha h : R) :
  length (L1_values Gamma u alpha h) = length u.
Proof. unfold L1_values. now rewrite length_map, length_seq. Qed.

Lemma nth_error_L1_values (u : vec) (alpha h : R) (i : nat) :
  (i < length u)%nat ->
  nth_error (L1_values Gamma u alpha h) i = Some (L1_entry Gamma u alpha h i).
Proof.
  intros Hi; unfold L1_values.
  rewrite nth_error_map, nth_error_seq.
  destruct (Nat.ltb_spec i (length u)); [reflexivity | lia].
Qed.

(** For [alpha <= 1] the only exception [L1_caputo] can raise comes from
    the grid spacing; otherwise it returns the closed form. *)
Lemma L1_caputo_ok (u : vec) (alpha : R) (x_grid : option vec) :
  alpha <= 1 ->
  L1_caputo Gamma u alpha x_grid =
  (h <- spacing (length u) x_grid ;; ok (L1_values Gamma u alpha h)).
Proof.
  intros Ha; unfold L1_caputo.
  destruct (spacing (length u) x_grid) as [h|e]; [|reflexivity].
  simpl. unfold range.
  destruct (length u) as [|m] eqn:En.
  - simpl. unfold L1_values. rewrite En. reflexivity.
  - simpl Nat.sub. rewrite Nat.sub_0_r.
    destruct (for_each_fill
                (fun i => L1_coeff Gamma alpha h * sum_below (L1_term u alpha i) i)
                (fun D i => s <- inner_sum u alpha i ;;
                            setitem D i
                              (1 / (Gamma (2 - alpha) * real_pow h alpha) * s))
                m 1%nat (zeros (S m)))
      as (D & HD & HL & Hin & Hout).
    + intros D i Hi. rewrite inner_sum_ok by exact Ha. reflexivity.
    + rewrite length_zeros; lia.
    + rewrite HD. f_equal. rewrite length_zeros in HL.
      apply vec_ext.
      * rewrite length_L1_values; congruence.
      * intros i Hi. rewrite nth_error_L1_values by lia.
        destruct i as [|i].
        -- rewrite Hout by lia. apply nth_error_zeros; lia.
        -- rewrite Hin by lia. reflexivity.
Qed.

End L1.

(** ** Grids *)

Lemma last_nth (x : vec) (d : R) : last x d = nth (length x - 1) x d.
Proof.
  induction x as [|a x IH]; [reflexivity|].
  destruct x as [|b x]; [reflexivity|].
  change (last (a :: b :: x) d) with (last (b :: x) d).
  rewrite IH. simpl. now rewrite Nat.sub_0_r.
Qed.

Lemma spacing_uniform (n : nat) (h : R) (x_grid : option vec) :
  (2 <= n)%nat -> uniform_grid n h x_grid -> spacing n x_grid = ok h.
Proof.
  intros Hn HU. unfold spacing.
  destruct x_grid as [x|]; simpl in HU.
  - destruct HU as [HL HU].
    destruct x as [|x0 x']; [simpl in HL; lia|].
    f_equal. rewrite last_nth, HL, (HU (n - 1)%nat) by lia.
    simpl nth. rewrite minus_INR by lia. simpl INR.
    assert (INR n - 1 <> 0).
    { apply lt_INR in Hn. simpl in Hn. lra. }
    field; assumption.
  - destruct (Nat.eqb_spec n 1); [lia|]. now rewrite HU.
Qed.

Lemma real_pow_Rpower (h a : R) : 0 < h -> real_pow h a = Rpower h a.
Proof.
  intros Hh; unfold real_pow.
  destruct (Req_dec_T a 0) as [->|Hne].
  - unfold Rpower. now rewrite Rmult_0_l, exp_0.
  - destruct (Rlt_dec 0 h); [reflexivity | contradiction].
Qed.

Lemma pow_value_Rpower (k : nat) (y : R) :
  (1 <= k)%nat -> pow_value k y = Rpower (INR k) y.
Proof.
  intros Hk; unfold pow_value.
  destruct (Req_dec_T y 0) as [->|Hne].
  - unfold Rpower. now rewrite Rmult_0_l, exp_0.
  - destruct k; [lia | reflexivity].
Qed.

(** ** Claims on the fractional derivative operator *)

Section L1_claims.

Variable Gamma : R -> R.

Lemma L1_values_zeros (n : nat) (alpha h : R) :
  L1_values Gamma (zeros n) alpha h = zeros n.
Proof.
  apply vec_ext.
  - now rewrite length_L1_values.
  - intros i Hi. rewrite length_L1_values, length_zeros in Hi.
    rewrite nth_error_L1_values, nth_error_zeros
      by (rewrite ?length_zeros; lia).
    f_equal. destruct i as [|i]; [reflexivity|].
    unfold L1_entry. rewrite sum_below_zero; [lra|].
    intros j Hj. unfold L1_term, zeros.
    rewrite !nth_repeat. lra.
Qed.

Lemma L1_values_shift (u : vec) (c alpha h : R) :
  L1_values Gamma (map (fun v => v + c) u) alpha h = L1_values Gamma u alpha h.
Proof.
  unfold L1_values. rewrite length_map.
  apply map_ext_in. intros i Hi. apply in_seq in Hi.
  destruct i as [|i]; [reflexivity|].
  unfold L1_entry. f_equal. apply sum_below_ext. intros j Hj.
  unfold L1_term. f_equal.
  rewrite !(nth_indep _ 0 (0 + c)) by (rewrite length_map; lia).
  rewrite !(map_nth (fun v => v + c)). lra.
Qed.

Lemma L1_values_alpha_1 (u : vec) (h : R) :
  L1_values Gamma u 1 h = zeros (length u).
Proof.
  apply vec_ext.
  - now rewrite length_L1_values, length_zeros.
  - intros i Hi. rewrite length_L1_values in Hi.
    rewrite nth_error_L1_values, nth_error_zeros by lia.
    f_equal. destruct i as [|i]; [reflexivity|].
    unfold L1_entry. rewrite sum_below_zero; [lra|].
    intros j Hj. unfold L1_term. rewrite L1_weight_alpha_1. lra.
Qed.

(** At [alpha = 1] the operator returns zeros for every input. *)
Lemma L1_caputo_alpha_1 (u : vec) (x_grid : option vec) :
  L1_caputo Gamma u 1 x_grid =
  (h <- spacing (length u) x_grid ;; ok (zeros (length u))).
Proof.
  rewrite L1_caputo_ok by lra.
  destruct (spacing (length u) x_grid); [|reflexivity].
  simpl. now rewrite L1_values_alpha_1.
Qed.

Lemma pow_value_nat_power (k : nat) (y : R) :
  y <> 0 -> pow_value k y = nat_power k y.
Proof.
  intros Hy. unfold pow_value, nat_power.
  destruct (Req_dec_T y 0); [contradiction | reflexivity].
Qed.

(** C2 (as amended).  On a uniform grid of [N >= 2] points with spacing
    [h] and for [alpha] in (0,1), the fractional derivative operator
    returns [D] of length [N] with [D[0] = 0] and, for [1 <= i < N],
    [D[i] = c * sum_{j=0}^{i-1} (u[j+1]-u[j]) * ((i-j)^(1-alpha) - (i-j-1)^(1-alpha))]
    where [c = 1 / (Gamma(2-alpha) * h^alpha)]. *)
Theorem L1_caputo_formula (u : vec) (alpha h : R) (x_grid : option vec) :
  (2 <= length u)%nat ->
  0 < alpha < 1 ->
  0 < h ->
  uniform_grid (length u) h x_grid ->
  exists D,
    L1_caputo Gamma u alpha x_grid = ok D /\
    length D = length u /\
    nth_error D 0 = Some 0 /\
    forall i, (1 <= i < length u)%nat ->
      nth_error D i =
      Some (1 / (Gamma (2 - alpha) * Rpower h alpha) *
            sum_f_R0
              (fun j => (nth (j + 1) u 0 - nth j u 0) *
                        (nat_power (i - j) (1 - alpha) -
                         nat_power (i - j - 1) (1 - alpha)))
              (i - 1)).
Proof.
  intros Hn Ha Hh HU.
  exists (L1_values Gamma u alpha h).
  rewrite L1_caputo_ok by lra.
  rewrite (spacing_uniform _ h) by assumption.
  split; [reflexivity|]. split; [apply length_L1_values|].
  split; [rewrite nth_error_L1_values by lia; reflexivity|].
  intros i Hi. rewrite nth_error_L1_values by lia.
  destruct i as [|i]; [lia|].
  unfold L1_entry, L1_coeff. rewrite real_pow_Rpower by assumption.
  rewrite sum_below_sum_f_R0. simpl Nat.sub. rewrite Nat.sub_0_r.
  do 2 f_equal. apply sum_eq. intros j Hj.
  unfold L1_term, L1_weight.
  rewrite !pow_value_nat_power by lra. reflexivity.
Qed.

(** C8.  On a uniform grid of [N >= 2] points and for [alpha] in (0,1],
    the fractional derivative operator maps the all-zero sequence to the
    all-zero sequence of the same length. *)
Theorem L1_caputo_zero (n : nat) (alpha h : R) (x_grid : option vec) :
  (2 <= n)%nat ->
  0 < alpha <= 1 ->
  0 < h ->
  uniform_grid n h x_grid ->
  L1_caputo Gamma (zeros n) alpha x_grid = ok (zeros n).
Proof.
  intros Hn Ha Hh HU.
  rewrite L1_caputo_ok by lra.
  rewrite length_zeros, (spacing_uniform _ h) by assumption.
  simpl. now rewrite L1_values_zeros.
Qed.

(** C10.  For [N >= 2] samples, [alpha] in (0,1] and any grid argument, the
    fractional derivative operator gives the same outcome for [u] and for
    [u] with a constant [c] added to every sample; in particular a constant
    sequence has the outcome of the zero sequence: all zeros, when the grid
    spacing can be computed. *)
Theorem L1_caputo_translation (u : vec) (c alpha : R) (x_grid : option vec) :
  (2 <= length u)%nat ->
  0 < alpha <= 1 ->
  L1_caputo Gamma (map (fun v => v + c) u) alpha x_grid =
  L1_caputo Gamma u alpha x_grid /\
  L1_caputo Gamma (repeat c (length u)) alpha x_grid =
  (h <- spacing (length u) x_grid ;; ok (zeros (length u))).
Proof.
  intros Hn Ha. split.
  - rewrite !L1_caputo_ok by lra. rewrite length_map.
    destruct (spacing (length u) x_grid) as [h|e]; [|reflexivity].
    simpl. now rewrite L1_values_shift.
  - replace (repeat c (length u))
      with (map (fun v => v + c) (zeros (length u))).
    + rewrite !L1_caputo_ok by lra. rewrite length_map, length_zeros.
      destruct (spacing (length u) x_grid) as [h|e]; [|reflexivity].
      simpl. now rewrite L1_values_shift, L1_values_zeros.
    + unfold zeros. rewrite map_repeat. f_equal. lra.
Qed.

(** C5.  At [alpha = 1] the operator takes the general code path, and on
    the samples [0, 1] of the default two-point grid ([h = 1]) it returns
    [0, 0], although the first-order difference [(u[1] - u[0]) / h] is
    [1]: both powers of the only weight are [x ** 0.0 = 1.0]. *)
Theorem L1_caputo_alpha_1_not_difference :
  L1_caputo Gamma [0; 1] 1 None = ok [0; 0] /\
  spacing 2 None = ok 1 /\
  (nth 1 [0; 1] 0 - nth 0 [0; 1] 0) / 1 = 1.
Proof.
  split; [|split].
  - rewrite L1_caputo_alpha_1. simpl. reflexivity.
  - simpl. f_equal. lra.
  - simpl. lra.
Qed.

End L1_claims.

Lemma L1_caputo_formula_witness :
  (2 <= length [0; 1; 4])%nat /\
  0 < 1 / 2 < 1 /\
  0 < 1 / 2 /\
  uniform_grid (length [0; 1; 4]) (1 / 2) None /\
  exists D,
    L1_caputo gamma_at_3_2 [0; 1; 4] (1 / 2) None = ok D /\
    length D = length [0; 1; 4] /\
    nth_error D 0 = Some 0 /\
    forall i, (1 <= i < length [0; 1; 4])%nat ->
      nth_error D i =
      Some (1 / (gamma_at_3_2 (2 - 1 / 2) * Rpower (1 / 2) (1 / 2)) *
            sum_f_R0
              (fun j => (nth (j + 1) [0; 1; 4] 0 - nth j [0; 1; 4] 0) *
                        (nat_power (i - j) (1 - 1 / 2) -
                         nat_power (i - j - 1) (1 - 1 / 2)))
              (i - 1)).
Proof.
  assert (H1 : (2 <= length [0; 1; 4])%nat) by (simpl; lia).
  assert (H2 : 0 < 1 / 2 < 1) by lra.
  assert (H3 : 0 < 1 / 2) by lra.
  assert (H4 : uniform_grid (length [0; 1; 4]) (1 / 2) None)
    by (simpl; lra).
  repeat (split; [assumption|]).
  exact (L1_caputo_formula gamma_at_3_2 [0; 1; 4] (1 / 2) (1 / 2) None
           H1 H2 H3 H4).
Defined.


(** ** Matrices *)

Lemma shape_row (r c : nat) (M : mat) (j : nat) :
  shape r c M -> (j < r)%nat -> length (nth j M []) = c.
Proof.
  intros [HL HF] Hj. rewrite Forall_forall in HF.
  apply HF, nth_In. lia.
Qed.

Lemma mat_ext (r c : nat) (A B : mat) :
  shape r c A -> shape r c B ->
  (forall j i, (j < r)%nat -> (i < c)%nat ->
     nth_error (nth j A []) i = nth_error (nth j B []) i) ->
  A = B.
Proof.
  intros HA HB H.
  apply (nth_ext A B [] []).
  - destruct HA, HB; congruence.
  - intros j Hj. destruct HA as [HLA HFA]. rewrite HLA in Hj.
    apply vec_ext.
    + rewrite (shape_row r c A), (shape_row r c B); auto. now split.
    + intros i Hi. rewrite (shape_row r c A) in Hi; [|now split|lia].
      now apply H.
Qed.

Lemma shape_zeros (r c : nat) : shape r c (repeat (zeros c) r).
Proof.
  split; [apply repeat_length|].
  apply Forall_forall. intros row Hrow.
  apply repeat_spec in Hrow. subst. apply length_zeros.
Qed.

Lemma nth_set_column (i : nat) :
  forall (M : mat) (v : vec) (j : nat),
    length v = length M -> (j < length M)%nat ->
    nth j (map (fun rv => upd (fst rv) i (snd rv)) (combine M v)) [] =
    upd (nth j M []) i (nth j v 0).
Proof.
  induction M as [|row M IH]; intros [|y v] [|j] HL Hj; simpl in *;
    try lia; try reflexivity.
  apply IH; lia.
Qed.

Lemma set_column_ok (r c : nat) (M : mat) (i : nat) (v : vec) :
  shape r c M -> (i < c)%nat -> length v = r ->
  exists M',
    set_column M i v = ok M' /\
    shape r c M' /\
    forall j, (j < r)%nat -> nth j M' [] = upd (nth j M []) i (nth j v 0).
Proof.
  intros [HL HF] Hi Hv.
  exists (map (fun rv => upd (fst rv) i (snd rv)) (combine M v)).
  split; [|split; [split|]].
  - unfold set_column.
    replace (forallb (fun row => (i <? length row)%nat) M) with true.
    + simpl. destruct (Nat.eqb_spec (length v) (length M)); [reflexivity|lia].
    + symmetry. apply forallb_forall. intros row Hrow.
      rewrite Forall_forall in HF. rewrite (HF row Hrow).
      now apply Nat.ltb_lt.
  - rewrite length_map, length_combine. lia.
  - apply Forall_forall. intros row Hrow.
    apply in_map_iff in Hrow. destruct Hrow as ([row0 y] & <- & Hin).
    simpl. rewrite length_upd.
    rewrite Forall_forall in HF. apply HF.
    eapply in_combine_l; eassumption.
  - intros j Hj. apply nth_set_column; lia.
Qed.

(** A loop that assigns column [k] the vector [cols k] for every [k] of an
    interval replaces exactly those columns. *)
Lemma for_each_columns (r c : nat) (cols : nat -> vec)
    (body : mat -> nat -> result mat) :
  forall (len a : nat) (M0 : mat),
    shape r c M0 ->
    (a + len <= c)%nat ->
    (forall M k, (a <= k < a + len)%nat ->
       body M k = set_column M k (cols k)) ->
    (forall k, (a <= k < a + len)%nat -> length (cols k) = r) ->
    exists M,
      for_each (seq a len) body M0 = ok M /\
      shape r c M /\
      forall j k, (j < r)%nat -> (k < c)%nat ->
        nth_error (nth j M []) k =
        if ((a <=? k) && (k <? a + len))%nat
        then Some (nth j (cols k) 0)
        else nth_error (nth j M0 []) k.
Proof.
  induction len as [|len IH]; intros a M0 HS Hle Hbody Hcols.
  - exists M0. simpl. repeat split; try apply HS.
    intros j k Hj Hk.
    destruct (Nat.leb_spec a k), (Nat.ltb_spec k (a + 0)); simpl;
      try reflexivity; lia.
  - simpl. rewrite Hbody by lia.
    destruct (set_column_ok r c M0 a (cols a) HS) as (M1 & E1 & HS1 & H1);
      [lia | apply Hcols; lia |].
    rewrite E1. simpl.
    destruct (IH (S a) M1 HS1) as (M & EM & HSM & HM).
    + lia.
    + intros M' k Hk. apply Hbody; lia.
    + intros k Hk. apply Hcols; lia.
    + exists M. split; [exact EM|]. split; [exact HSM|].
      intros j k Hj Hk. rewrite HM by assumption.
      destruct (Nat.leb_spec (S a) k), (Nat.ltb_spec k (S a + len)),
               (Nat.leb_spec a k), (Nat.ltb_spec k (a + S len)); simpl;
        try reflexivity; try lia.
      all: rewrite H1 by assumption.
      all: destruct (Nat.eq_dec k a) as [->|Hne];
        [ try lia; apply nth_error_upd_same; rewrite (shape_row r c); auto
        | try lia; apply nth_error_upd_other; lia ].
Qed.

(** ** The kernel matrices in closed form *)

Lemma shape_pairwise (a b : vec) (gamma : R) :
  shape (length a) (length b) (pairwise a b gamma).
Proof.
  split; unfold pairwise.
  - apply length_map.
  - apply Forall_forall. intros row Hrow.
    apply in_map_iff in Hrow. destruct Hrow as (aj & <- & _).
    apply length_map.
Qed.

Lemma nth_pairwise (a b : vec) (gamma : R) (j : nat) :
  (j < length a)%nat ->
  nth j (pairwise a b gamma) [] =
  map (fun bi => exp (- gamma * (nth j a 0 - bi) ^ 2)) b.
Proof.
  intros Hj. unfold pairwise.
  rewrite (nth_indep _ [] ((fun aj => map (fun bi => exp (- gamma * (aj - bi) ^ 2)) b) 0))
    by (rewrite length_map; lia).
  now rewrite (map_nth (fun aj => map (fun bi => exp (- gamma * (aj - bi) ^ 2)) b)).
Qed.

Lemma entry_pairwise (a b : vec) (gamma : R) (j i : nat) :
  (j < length a)%nat -> (i < length b)%nat ->
  entry (pairwise a b gamma) j i = rbf_kernel (nth j a 0) (nth i b 0) gamma.
Proof.
  intros Hj Hi. unfold entry. rewrite nth_pairwise by assumption.
  rewrite (nth_indep _ 0 ((fun bi => exp (- gamma * (nth j a 0 - bi) ^ 2)) 0))
    by (rewrite length_map; lia).
  now rewrite (map_nth (fun bi => exp (- gamma * (nth j a 0 - bi) ^ 2))).
Qed.

Lemma length_column (M : mat) (i : nat) : length (column M i) = length M.
Proof. apply length_map. Qed.

Section Kernel.

Variable Gamma : R -> R.

Lemma shape_D_alpha_K_values (x : vec) (alpha gamma : R) :
  shape (length x) (length x) (D_alpha_K_values Gamma x alpha gamma).
Proof.
  split; unfold D_alpha_K_values; cbv zeta.
  - now rewrite length_map, length_seq.
  - apply Forall_forall. intros row Hrow.
    apply in_map_iff in Hrow. destruct Hrow as (j & <- & _).
    now rewrite length_map, length_seq.
Qed.

Lemma nth_error_D_alpha_K_values (x : vec) (alpha gamma : R) (j i : nat) :
  (j < length x)%nat -> (i < length x)%nat ->
  nth_error (nth j (D_alpha_K_values Gamma x alpha gamma) []) i =
  Some (L1_entry Gamma (column (pairwise x x gamma) i) alpha
          (grid_spacing x) j).
Proof.
  intros Hj Hi. unfold D_alpha_K_values; cbv zeta.
  set (f := fun j => map _ (seq 0 (length x))).
  rewrite (nth_indep _ [] (f 0%nat)) by (rewrite length_map, length_seq; lia).
  rewrite (map_nth f), seq_nth by lia. simpl. unfold f.
  rewrite nth_error_map, nth_error_seq.
  destruct (Nat.ltb_spec i (length x)); [reflexivity | lia].
Qed.

(** For [alpha <= 1] the kernel matrix builder raises nothing, whatever the
    grid and [gamma] are. *)
Lemma build_kernel_matrices_ok (x : vec) (alpha gamma : R) :
  alpha <= 1 ->
  build_kernel_matrices Gamma x alpha gamma =
  ok (pairwise x x gamma, D_alpha_K_values Gamma x alpha gamma).
Proof.
  intros Ha. unfold build_kernel_matrices. cbv zeta. unfold range.
  rewrite Nat.sub_0_r.
  set (N := length x). set (K := pairwise x x gamma).
  destruct (for_each_columns N N
              (fun i => L1_values Gamma (column K i) alpha (grid_spacing x))
              (fun D i => c <- L1_caputo Gamma (column K i) alpha (Some x) ;;
                          set_column D i c)
              N 0%nat (repeat (zeros N) N))
    as (M & EM & HSM & HM).
  - apply shape_zeros.
  - lia.
  - intros M k Hk. rewrite L1_caputo_ok by exact Ha.
    unfold spacing. rewrite length_column.
    unfold K at 1. rewrite (proj1 (shape_pairwise x x gamma)).
    destruct x as [|x0 x'] eqn:Ex; [simpl in N; lia|].
    rewrite <- Ex. simpl. unfold grid_spacing. rewrite Ex. reflexivity.
  - intros k Hk. rewrite length_L1_values, length_column.
    apply (proj1 (shape_pairwise x x gamma)).
  - rewrite EM. simpl. f_equal. f_equal.
    apply (mat_ext N N); [exact HSM | apply shape_D_alpha_K_values |].
    intros j i Hj Hi. rewrite HM by assumption.
    rewrite nth_error_D_alpha_K_values by assumption.
    destruct (Nat.leb_spec 0 i), (Nat.ltb_spec i (0 + N)); simpl; try lia.
    f_equal. fold K.
    assert (HLc : length (column K i) = N).
    { rewrite length_column. apply (proj1 (shape_pairwise x x gamma)). }
    pose proof (nth_error_L1_values Gamma (column K i) alpha (grid_spacing x) j)
      as E.
    rewrite HLc in E. specialize (E Hj).
    apply nth_error_nth with (d := 0) in E. exact E.
Qed.

End Kernel.

(** ** The underflow of the exponential *)

Lemma exp_underflow_pos : 0 < exp_underflow.
Proof. unfold exp_underflow. assert (H := ln_lt_2). lra. Qed.

Lemma ln_2_upper : ln 2 < 93 / 100.
Proof.
  rewrite <- (ln_exp (93 / 100)). apply ln_increasing; [lra|].
  replace (93 / 100) with (93 / 200 + 93 / 200) by lra.
  rewrite exp_plus.
  assert (H : 1 + 93 / 200 < exp (93 / 200)) by (apply exp_ineq1; lra).
  nra.
Qed.

Lemma np_exp_nonneg (z : R) : 0 <= np_exp z.
Proof.
  unfold np_exp. destruct (Rle_dec z (- exp_underflow)); [lra|].
  left. apply exp_pos.
Qed.

Lemma np_exp_exp (z : R) : - exp_underflow < z -> np_exp z = exp z.
Proof.
  intros Hz. unfold np_exp.
  destruct (Rle_dec z (- exp_underflow)); [lra | reflexivity].
Qed.

Lemma np_exp_zero (z : R) : z <= - exp_underflow -> np_exp z = 0.
Proof.
  intros Hz. unfold np_exp.
  destruct (Rle_dec z (- exp_underflow)); [reflexivity | contradiction].
Qed.

Lemma shape_kernel_matrix_underflow (x : vec) (gamma : R) :
  shape (length x) (length x) (kernel_matrix_underflow x gamma).
Proof.
  split; unfold kernel_matrix_underflow.
  - apply length_map.
  - apply Forall_forall. intros row Hrow.
    apply in_map_iff in Hrow. destruct Hrow as (xj & <- & _).
    apply length_map.
Qed.

Lemma entry_kernel_matrix_underflow (x : vec) (gamma : R) (j i : nat) :
  (j < length x)%nat -> (i < length x)%nat ->
  entry (kernel_matrix_underflow x gamma) j i =
  np_exp (- gamma * (nth j x 0 - nth i x 0) ^ 2).
Proof.
  intros Hj Hi. unfold entry, kernel_matrix_underflow.
  set (f := fun xj => map (fun xi => np_exp (- gamma * (xj - xi) ^ 2)) x).
  rewrite (nth_indep _ [] (f 0)) by (rewrite length_map; lia).
  rewrite (map_nth f). unfold f.
  set (g := fun xi => np_exp (- gamma * (nth j x 0 - xi) ^ 2)).
  rewrite (nth_indep _ 0 (g 0)) by (rewrite length_map; lia).
  now rewrite (map_nth g).
Qed.

(** Where no entry underflows the two kernel matrices are the same, and
    so are the outcomes of the two builders. *)
Lemma kernel_matrix_underflow_pairwise (x : vec) (gamma : R) :
  (forall a b, In a x -> In b x -> gamma * (a - b) ^ 2 < exp_underflow) ->
  kernel_matrix_underflow x gamma = pairwise x x gamma.
Proof.
  intros H. unfold kernel_matrix_underflow, pairwise.
  apply map_ext_in. intros a Ha. apply map_ext_in. intros b Hb.
  apply np_exp_exp. specialize (H a b Ha Hb). lra.
Qed.

Lemma build_kernel_matrices_underflow_agrees (Gamma : R -> R) (x : vec)
    (alpha gamma : R) :
  (forall a b, In a x -> In b x -> gamma * (a - b) ^ 2 < exp_underflow) ->
  build_kernel_matrices_underflow Gamma x alpha gamma =
  build_kernel_matrices Gamma x alpha gamma.
Proof.
  intros H. unfold build_kernel_matrices_underflow, build_kernel_matrices.
  cbv zeta. now rewrite kernel_matrix_underflow_pairwise.
Qed.

Lemma build_kernel_matrices_underflow_K (Gamma : R -> R) (x : vec)
    (alpha gamma : R) (K D : mat) :
  build_kernel_matrices_underflow Gamma x alpha gamma = ok (K, D) ->
  K = kernel_matrix_underflow x gamma.
Proof.
  unfold build_kernel_matrices_underflow. cbv zeta.
  destruct (for_each _ _ _) as [M|e]; simpl; [|discriminate].
  intros E; inversion E; reflexivity.
Qed.

(** ** Claims on the kernel matrix *)

Section Kernel_claims.

Variable Gamma : R -> R.

(** The kernel matrix returned by the builder is the pairwise kernel of the
    grid with itself, whatever [alpha] is. *)
Lemma build_kernel_matrices_K (x : vec) (alpha gamma : R) (K D : mat) :
  build_kernel_matrices Gamma x alpha gamma = ok (K, D) ->
  K = pairwise x x gamma.
Proof.
  unfold build_kernel_matrices. cbv zeta.
  destruct (for_each _ _ _) as [M|e]; simpl; [|discriminate].
  intros H; inversion H; reflexivity.
Qed.

(** C6 (as amended).  For every grid of [N] points and every [gamma > 0]
    the kernel matrix [K] returned by the builder is [N] by [N], with
    [K[j,i] = exp(-gamma * (x_j - x_i)^2)] or [0] where that exponential
    underflows, symmetric, with non-negative entries, strictly positive
    wherever [gamma * (x_j - x_i)^2 < 1075 * ln 2], and with unit
    diagonal. *)
Theorem kernel_matrix_properties (x : vec) (alpha gamma : R) (K D : mat) :
  0 < gamma ->
  build_kernel_matrices_underflow Gamma x alpha gamma = ok (K, D) ->
  shape (length x) (length x) K /\
  forall j i, (j < length x)%nat -> (i < length x)%nat ->
    entry K j i = np_exp (- gamma * (nth j x 0 - nth i x 0) ^ 2) /\
    entry K i j = entry K j i /\
    0 <= entry K j i /\
    (gamma * (nth j x 0 - nth i x 0) ^ 2 < exp_underflow ->
       entry K j i = exp (- gamma * (nth j x 0 - nth i x 0) ^ 2) /\
       0 < entry K j i) /\
    entry K i i = 1.
Proof.
  intros Hg HB. apply build_kernel_matrices_underflow_K in HB. subst K.
  split; [apply shape_kernel_matrix_underflow|].
  intros j i Hj Hi. rewrite !entry_kernel_matrix_underflow by assumption.
  split; [reflexivity|]. split; [f_equal; ring|].
  split; [apply np_exp_nonneg|]. split.
  - intros Hlt. rewrite np_exp_exp by lra.
    split; [reflexivity | apply exp_pos].
  - replace (- gamma * (nth i x 0 - nth i x 0) ^ 2) with 0 by ring.
    rewrite np_exp_exp by (assert (H := exp_underflow_pos); lra).
    apply exp_0.
Qed.

End Kernel_claims.

(** ** Claims on the collocation residual *)

Lemma matvec_ok (r c : nat) (M : mat) (a : vec) :
  shape r c M -> length a = c ->
  matvec M a = ok (map (fun row => dot row a) M).
Proof.
  intros [HL HF] Ha. unfold matvec.
  replace (forallb (fun row => (length row =? length a)%nat) M) with true;
    [reflexivity|].
  symmetry. apply forallb_forall. intros row Hrow.
  rewrite Forall_forall in HF. rewrite (HF row Hrow), Ha.
  apply Nat.eqb_refl.
Qed.

Lemma nth_error_matvec (M : mat) (a : vec) (i : nat) :
  (i < length M)%nat ->
  nth_error (map (fun row => dot row a) M) i = Some (matvec_entry M a i).
Proof.
  intros Hi. rewrite nth_error_map.
  rewrite (nth_error_nth' M [] Hi). reflexivity.
Qed.

Lemma getitem_matvec (M : mat) (a : vec) (i : nat) :
  (i < length M)%nat ->
  getitem (map (fun row => dot row a) M) i = ok (matvec_entry M a i).
Proof.
  intros Hi. unfold getitem. now rewrite nth_error_matvec.
Qed.

(** C1.  For [N >= 2], a coefficient vector of length [N], [N] by [N]
    matrices [K] and [D] and every [lambda], the collocation residual
    returns [F] of length [N] with [F[0] = (K alpha)[0]],
    [F[N-1] = (K alpha)[N-1]] and
    [F[i] = (D alpha)[i] + lambda * exp ((K alpha)[i])] for
    [1 <= i <= N-2]. *)
Theorem residual_formula (alpha : vec) (K D : mat) (lam : R) (N : nat) :
  (2 <= N)%nat ->
  length alpha = N ->
  shape N N K ->
  shape N N D ->
  exists F,
    lssvr_bratu_residual alpha K D lam N = ok F /\
    length F = N /\
    nth_error F 0 = Some (matvec_entry K alpha 0) /\
    nth_error F (N - 1) = Some (matvec_entry K alpha (N - 1)) /\
    forall i, (1 <= i <= N - 2)%nat ->
      nth_error F i =
      Some (matvec_entry D alpha i + lam * exp (matvec_entry K alpha i)).
Proof.
  intros HN Ha HK HD. unfold lssvr_bratu_residual.
  rewrite (matvec_ok N N K), (matvec_ok N N D) by assumption.
  cbn [bind].
  assert (HLK : length K = N) by apply HK.
  assert (HLD : length D = N) by apply HD.
  rewrite !getitem_matvec by lia. cbn [bind].
  rewrite setitem_ok by (rewrite length_zeros; lia). cbn [bind].
  rewrite setitem_ok by (rewrite length_upd, length_zeros; lia). cbn [bind].
  set (F0 := upd (upd (zeros N) 0 _) (N - 1) _).
  assert (HF0 : length F0 = N).
  { unfold F0. now rewrite !length_upd, length_zeros. }
  unfold range.
  destruct (for_each_fill
              (fun i => matvec_entry D alpha i
                        + lam * exp (matvec_entry K alpha i))
              (fun F i =>
                 d <- getitem (map (fun row => dot row alpha) D) i ;;
                 ui <- getitem (map (fun row => dot row alpha) K) i ;;
                 setitem F i (d + lam * exp ui))
              (N - 1 - 1) 1%nat F0)
    as (F & EF & HL & Hin & Hout).
  - intros F i Hi. rewrite !getitem_matvec by lia. reflexivity.
  - lia.
  - exists F. rewrite EF. split; [reflexivity|]. split; [lia|].
    split; [|split].
    + rewrite Hout by lia. unfold F0.
      rewrite nth_error_upd_other by lia.
      apply nth_error_upd_same. rewrite length_zeros; lia.
    + rewrite Hout by lia. unfold F0.
      apply nth_error_upd_same. rewrite length_upd, length_zeros; lia.
    + intros i Hi. apply Hin. lia.
Qed.

(** ** Round trip through the predictor *)

Lemma nth_error_upd_length (a : vec) (i k : nat) (v : R) :
  (k < length a)%nat -> nth_error (upd a i v) k <> None.
Proof.
  intros Hk. apply nth_error_Some. now rewrite length_upd.
Qed.

(** A loop whose body only assigns at the current index leaves the other
    entries as they were, also when the body can raise. *)
Lemma for_each_preserve (body : vec -> nat -> result vec) (k : nat) :
  forall (l : list nat) (D0 D : vec),
    (forall D1 D2 i, In i l -> body D1 i = ok D2 ->
       exists v, D2 = upd D1 i v) ->
    ~ In k l ->
    for_each l body D0 = ok D ->
    nth_error D k = nth_error D0 k.
Proof.
  induction l as [|i l IH]; intros D0 D Hbody Hk E; simpl in E.
  - now inversion E.
  - destruct (body D0 i) as [D1|e] eqn:E1; simpl in E; [|discriminate].
    destruct (Hbody D0 D1 i (or_introl eq_refl) E1) as [v ->].
    rewrite (IH (upd D0 i v) D); auto.
    + apply nth_error_upd_other. intros ->. apply Hk. now left.
    + intros D1 D2 j Hj. apply Hbody. now right.
    + intros Hin. apply Hk. now right.
Qed.

Lemma setitem_inv (a b : vec) (i : nat) (v : R) :
  setitem a i v = ok b -> (i < length a)%nat /\ b = upd a i v.
Proof.
  unfold setitem. destruct (Nat.ltb_spec i (length a)); intros E;
    inversion E; auto.
Qed.

Lemma getitem_inv (a : vec) (i : nat) (v : R) :
  getitem a i = ok v -> nth_error a i = Some v.
Proof.
  unfold getitem. destruct (nth_error a i); intros E; inversion E; auto.
Qed.

(** Whenever the residual returns, its first and last entries are those of
    [K alpha]. *)
Lemma residual_boundary (alpha : vec) (K D : mat) (lam : R) (N : nat)
    (F : vec) :
  lssvr_bratu_residual alpha K D lam N = ok F ->
  exists u u0 uN,
    matvec K alpha = ok u /\
    nth_error u 0 = Some u0 /\
    nth_error u (N - 1) = Some uN /\
    nth_error F 0 = Some u0 /\
    nth_error F (N - 1) = Some uN.
Proof.
  unfold lssvr_bratu_residual. intros E.
  destruct (matvec K alpha) as [u|] eqn:Eu; simpl in E; [|discriminate].
  destruct (matvec D alpha) as [Du|]; simpl in E; [|discriminate].
  destruct (getitem u 0) as [u0|] eqn:E0; simpl in E; [|discriminate].
  destruct (setitem (zeros N) 0 u0) as [F1|] eqn:E1; simpl in E;
    [|discriminate].
  destruct (getitem u (N - 1)) as [uN|] eqn:EN; simpl in E; [|discriminate].
  destruct (setitem F1 (N - 1) uN) as [F2|] eqn:E2; simpl in E;
    [|discriminate].
  apply setitem_inv in E1. destruct E1 as [H1 ->].
  apply setitem_inv in E2. destruct E2 as [H2 ->].
  apply getitem_inv in E0. apply getitem_inv in EN.
  rewrite length_zeros in H1. rewrite length_upd, length_zeros in H2.
  assert (P : forall k, ~ In k (range 1 (N - 1)) ->
              nth_error F k =
              nth_error (upd (upd (zeros N) 0 u0) (N - 1) uN) k).
  { intros k Hk. refine (for_each_preserve _ k _ _ _ _ Hk E).
    intros D1 D2 i _ E'.
    destruct (getitem Du i) as [d|]; simpl in E'; [|discriminate].
    destruct (getitem u i) as [ui|]; simpl in E'; [|discriminate].
    apply setitem_inv in E'. destruct E' as [_ ->]. eauto. }
  exists u, u0, uN. repeat split; auto.
  - rewrite P.
    + destruct (Nat.eq_dec (N - 1) 0) as [Z|NZ].
      * rewrite Z in *. rewrite nth_error_upd_same
          by (rewrite length_upd, length_zeros; lia). congruence.
      * rewrite nth_error_upd_other by lia.
        apply nth_error_upd_same. rewrite length_zeros; lia.
    + unfold range. rewrite in_seq. lia.
  - rewrite P.
    + apply nth_error_upd_same. rewrite length_upd, length_zeros; lia.
    + unfold range. rewrite in_seq. lia.
Qed.

(** ** Claims on the solver driver and the predictor *)

Lemma length_linspace (start stop : R) (num : nat) :
  length (linspace start stop num) = num.
Proof.
  unfold linspace. destruct num as [|[|n]]; try reflexivity.
  now rewrite length_map, length_seq.
Qed.

Section Solver_claims.

Variable Gamma : R -> R.
Variable infodict : Type.
Variable fsolve :
  (vec -> result vec) -> vec -> result (vec * infodict * Z * string).

Lemma solve_lssvr_bratu_unfold (t0 t1 alpha_param lam : R) (N : nat)
    (gamma : R) (x_grid : option vec) :
  solve_lssvr_bratu Gamma infodict fsolve t0 t1 alpha_param lam N gamma x_grid =
  let x := solve_grid N x_grid in
  (KD <- build_kernel_matrices Gamma x alpha_param gamma ;;
   r <- fsolve (fun a => lssvr_bratu_residual a (fst KD) (snd KD) lam
                           (length x))
               (zeros (length x)) ;;
   ok (solve_finish t0 t1 x (fst KD) (snd KD) r)).
Proof.
  unfold solve_lssvr_bratu, solve_grid.
  destruct x_grid as [g|]; cbv zeta; rewrite ?length_linspace.
  - destruct (build_kernel_matrices Gamma g alpha_param gamma) as [[K D]|e];
      [|reflexivity].
    simpl. destruct (fsolve _ _) as [[[[a i] ier] msg]|e]; reflexivity.
  - destruct (build_kernel_matrices Gamma (linspace 0 1 N) alpha_param gamma)
      as [[K D]|e]; [|reflexivity].
    simpl. destruct (fsolve _ _) as [[[[a i] ier] msg]|e]; reflexivity.
Qed.

(** C3 (as amended).  When [fsolve] reports non-convergence ([ier <> 1]),
    the solve entry point prints one warning line with [ier] and the
    solver's message, and returns the same five outputs as on success: the
    grid, the solver's coefficients, [K], [D] and the wall time.  The status
    and the message are not among the returned outputs. *)
Theorem solve_nonconvergence_warns (t0 t1 alpha_param lam : R) (N : nat)
    (gamma : R) (x_grid : option vec) (K D : mat) (alpha : vec)
    (info : infodict) (ier : Z) (msg : string) :
  build_kernel_matrices Gamma (solve_grid N x_grid) alpha_param gamma
    = ok (K, D) ->
  fsolve (fun a => lssvr_bratu_residual a K D lam
                     (length (solve_grid N x_grid)))
         (zeros (length (solve_grid N x_grid)))
    = ok (alpha, info, ier, msg) ->
  ier <> 1%Z ->
  solve_lssvr_bratu Gamma infodict fsolve t0 t1 alpha_param lam N gamma x_grid =
  ok (Solution (solve_grid N x_grid) alpha K D (t1 - t0), [warning ier msg]).
Proof.
  intros HB HF Hier. rewrite solve_lssvr_bratu_unfold. cbv zeta.
  rewrite HB. cbn [bind fst snd]. rewrite HF. cbn [bind].
  unfold solve_finish.
  destruct (Z.eqb_spec ier 1); [contradiction | reflexivity].
Qed.

(** C4 (as amended).  The solve entry point validates nothing: for every
    non-negative [N] (also [N < 2]), every [gamma] (also [gamma <= 0]) and
    every explicit grid (also a non-uniform one), with [alpha] in (0,1], it
    builds [K] and [D] without raising and calls the nonlinear solver on
    the residual from the zero initial guess; its outcome is the
    solver's. *)
Theorem solve_no_validation (t0 t1 alpha_param lam : R) (N : nat)
    (gamma : R) (x_grid : option vec) :
  0 < alpha_param <= 1 ->
  exists K D,
    build_kernel_matrices Gamma (solve_grid N x_grid) alpha_param gamma
      = ok (K, D) /\
    solve_lssvr_bratu Gamma infodict fsolve t0 t1 alpha_param lam N gamma
      x_grid =
    (r <- fsolve (fun a => lssvr_bratu_residual a K D lam
                             (length (solve_grid N x_grid)))
                 (zeros (length (solve_grid N x_grid))) ;;
     ok (solve_finish t0 t1 (solve_grid N x_grid) K D r)).
Proof.
  intros Ha. set (x := solve_grid N x_grid).
  exists (pairwise x x gamma), (D_alpha_K_values Gamma x alpha_param gamma).
  split; [apply build_kernel_matrices_ok; lra|].
  rewrite solve_lssvr_bratu_unfold. cbv zeta. fold x.
  rewrite build_kernel_matrices_ok by lra. reflexivity.
Qed.

(** The clock readings enter the wall time only. *)
Lemma solve_clock_independent (t0 t1 t0' t1' alpha_param lam : R) (N : nat)
    (gamma : R) (x_grid : option vec) :
  without_wall_time
    (solve_lssvr_bratu Gamma infodict fsolve t0 t1 alpha_param lam N gamma
       x_grid) =
  without_wall_time
    (solve_lssvr_bratu Gamma infodict fsolve t0' t1' alpha_param lam N gamma
       x_grid).
Proof.
  rewrite !solve_lssvr_bratu_unfold. cbv zeta.
  destruct (build_kernel_matrices Gamma _ alpha_param gamma) as [[K D]|e];
    [|reflexivity].
  cbn [bind fst snd].
  destruct (fsolve _ _) as [[[[a i] ier] msg]|e]; reflexivity.
Qed.

(** C7.  If the coefficients [alpha] make the collocation residual, with
    [K] and [D] built from the grid [x] and [gamma], exactly zero, then the
    predictor evaluated at the grid points with the same [gamma] returns a
    vector whose first and last entries are [0]. *)
Theorem predict_round_trip (x alpha : vec) (alpha_param gamma lam : R)
    (K D : mat) :
  build_kernel_matrices Gamma x alpha_param gamma = ok (K, D) ->
  lssvr_bratu_residual alpha K D lam (length x) = ok (zeros (length x)) ->
  exists u,
    lssvr_predict x x alpha gamma = ok u /\
    nth_error u 0 = Some 0 /\
    nth_error u (length x - 1) = Some 0.
Proof.
  intros HB HF. apply build_kernel_matrices_K in HB. subst K.
  destruct (residual_boundary _ _ _ _ _ _ HF)
    as (u & u0 & uN & Eu & E0 & EN & F0 & FN).
  assert (HN : (0 < length x)%nat).
  { destruct (length x); [discriminate F0 | lia]. }
  rewrite nth_error_zeros in F0, FN by lia.
  exists u. unfold lssvr_predict. cbv zeta.
  split; [exact Eu|]. split; congruence.
Qed.

End Solver_claims.

Lemma pairwise_two_points (gamma : R) :
  pairwise [0; 1] [0; 1] gamma =
  [[exp (- gamma * (0 - 0) ^ 2); exp (- gamma * (0 - 1) ^ 2)];
   [exp (- gamma * (1 - 0) ^ 2); exp (- gamma * (1 - 1) ^ 2)]].
Proof. reflexivity. Qed.

Lemma pairwise_one_point (gamma : R) : pairwise [0] [0] gamma = [[1]].
Proof.
  unfold pairwise. cbn [map]. do 2 f_equal.
  replace (- gamma * (0 - 0) ^ 2) with 0 by ring. apply exp_0.
Qed.

Lemma residual_two_points_zero :
  lssvr_bratu_residual [0; 0] (pairwise [0; 1] [0; 1] 10)
    (D_alpha_K_values gamma_at_1 [0; 1] 1 10) 1 2 = ok (zeros 2).
Proof.
  unfold lssvr_bratu_residual, matvec, D_alpha_K_values, pairwise.
  cbn [map length seq forallb Nat.eqb andb bind getitem nth_error setitem
       Nat.ltb Nat.leb zeros repeat upd Nat.sub range for_each dot].
  f_equal. f_equal; [|f_equal]; ring.
Qed.

Lemma L1_caputo_zero_witness :
  (2 <= 2)%nat /\
  0 < 1 <= 1 /\
  0 < 1 /\
  uniform_grid 2 1 None /\
  L1_caputo gamma_at_1 (zeros 2) 1 None = ok (zeros 2).
Proof.
  assert (H1 : (2 <= 2)%nat) by lia.
  assert (H2 : 0 < 1 <= 1) by lra.
  assert (H3 : 0 < 1) by lra.
  assert (H4 : uniform_grid 2 1 None) by (simpl; lra).
  repeat (split; [assumption|]).
  exact (L1_caputo_zero gamma_at_1 2 1 1 None H1 H2 H3 H4).
Defined.

Lemma L1_caputo_translation_witness :
  (2 <= length [0; 1])%nat /\
  0 < 1 <= 1 /\
  L1_caputo gamma_at_1 (map (fun v => v + 5) [0; 1]) 1 None =
  L1_caputo gamma_at_1 [0; 1] 1 None /\
  L1_caputo gamma_at_1 (repeat 5 (length [0; 1])) 1 None =
  (h <- spacing (length [0; 1]) None ;; ok (zeros (length [0; 1]))).
Proof.
  assert (H1 : (2 <= length [0; 1])%nat) by (simpl; lia).
  assert (H2 : 0 < 1 <= 1) by lra.
  repeat (split; [assumption|]).
  exact (L1_caputo_translation gamma_at_1 [0; 1] 5 1 None H1 H2).
Defined.

Lemma build_underflow_two_points (gamma : R) :
  build_kernel_matrices_underflow gamma_at_1 [0; 1] 1 gamma =
  ok (kernel_matrix_underflow [0; 1] gamma, [[0; 0]; [0; 0]]).
Proof.
  unfold build_kernel_matrices_underflow. cbv zeta.
  change (range 0 (length [0; 1])) with [0%nat; 1%nat].
  cbn [for_each]. rewrite !L1_caputo_alpha_1. reflexivity.
Qed.

Lemma kernel_matrix_properties_witness :
  0 < 10 /\
  build_kernel_matrices_underflow gamma_at_1 [0; 1] 1 10 =
    ok (kernel_matrix_underflow [0; 1] 10, [[0; 0]; [0; 0]]) /\
  shape (length [0; 1]) (length [0; 1]) (kernel_matrix_underflow [0; 1] 10) /\
  forall j i, (j < length [0; 1])%nat -> (i < length [0; 1])%nat ->
    entry (kernel_matrix_underflow [0; 1] 10) j i =
      np_exp (- (10) * (nth j [0; 1] 0 - nth i [0; 1] 0) ^ 2) /\
    entry (kernel_matrix_underflow [0; 1] 10) i j =
      entry (kernel_matrix_underflow [0; 1] 10) j i /\
    0 <= entry (kernel_matrix_underflow [0; 1] 10) j i /\
    (10 * (nth j [0; 1] 0 - nth i [0; 1] 0) ^ 2 < exp_underflow ->
       entry (kernel_matrix_underflow [0; 1] 10) j i =
         exp (- (10) * (nth j [0; 1] 0 - nth i [0; 1] 0) ^ 2) /\
       0 < entry (kernel_matrix_underflow [0; 1] 10) j i) /\
    entry (kernel_matrix_underflow [0; 1] 10) i i = 1.
Proof.
  assert (H1 : 0 < 10) by lra.
  assert (H2 := build_underflow_two_points 10).
  repeat (split; [assumption|]).
  exact (kernel_matrix_properties gamma_at_1 [0; 1] 1 10 _ _ H1 H2).
Defined.

Lemma residual_formula_witness :
  (2 <= 2)%nat /\
  length [0; 0] = 2%nat /\
  shape 2 2 [[1; 0]; [0; 1]] /\
  shape 2 2 [[0; 0]; [0; 0]] /\
  exists F,
    lssvr_bratu_residual [0; 0] [[1; 0]; [0; 1]] [[0; 0]; [0; 0]] 1 2
      = ok F /\
    length F = 2%nat /\
    nth_error F 0 = Some (matvec_entry [[1; 0]; [0; 1]] [0; 0] 0) /\
    nth_error F (2 - 1) = Some (matvec_entry [[1; 0]; [0; 1]] [0; 0] (2 - 1)) /\
    forall i, (1 <= i <= 2 - 2)%nat ->
      nth_error F i =
      Some (matvec_entry [[0; 0]; [0; 0]] [0; 0] i
            + 1 * exp (matvec_entry [[1; 0]; [0; 1]] [0; 0] i)).
Proof.
  assert (H1 : (2 <= 2)%nat) by lia.
  assert (H2 : length [0; 0] = 2%nat) by reflexivity.
  assert (H3 : shape 2 2 [[1; 0]; [0; 1]])
    by (split; [reflexivity | repeat constructor]).
  assert (H4 : shape 2 2 [[0; 0]; [0; 0]])
    by (split; [reflexivity | repeat constructor]).
  repeat (split; [assumption|]).
  exact (residual_formula [0; 0] _ _ 1 2 H1 H2 H3 H4).
Defined.

Lemma predict_round_trip_witness :
  build_kernel_matrices gamma_at_1 [0; 1] 1 10 =
    ok (pairwise [0; 1] [0; 1] 10, D_alpha_K_values gamma_at_1 [0; 1] 1 10) /\
  lssvr_bratu_residual [0; 0] (pairwise [0; 1] [0; 1] 10)
    (D_alpha_K_values gamma_at_1 [0; 1] 1 10) 1 (length [0; 1])
    = ok (zeros (length [0; 1])) /\
  exists u,
    lssvr_predict [0; 1] [0; 1] [0; 0] 10 = ok u /\
    nth_error u 0 = Some 0 /\
    nth_error u (length [0; 1] - 1) = Some 0.
Proof.
  assert (H1 : build_kernel_matrices gamma_at_1 [0; 1] 1 10 =
               ok (pairwise [0; 1] [0; 1] 10,
                   D_alpha_K_values gamma_at_1 [0; 1] 1 10))
    by (apply build_kernel_matrices_ok; lra).
  assert (H2 : lssvr_bratu_residual [0; 0] (pairwise [0; 1] [0; 1] 10)
                 (D_alpha_K_values gamma_at_1 [0; 1] 1 10) 1 (length [0; 1])
               = ok (zeros (length [0; 1])))
    by exact residual_two_points_zero.
  repeat (split; [assumption|]).
  exact (predict_round_trip gamma_at_1 [0; 1] [0; 0] 1 10 1 _ _ H1 H2).
Defined.

Lemma solve_nonconvergence_warns_witness :
  build_kernel_matrices gamma_at_1 (solve_grid 2 None) 1 10 =
    ok (pairwise (solve_grid 2 None) (solve_grid 2 None) 10,
        D_alpha_K_values gamma_at_1 (solve_grid 2 None) 1 10) /\
  fsolve_stub 5 "no progress"
    (fun a => lssvr_bratu_residual a
                (pairwise (solve_grid 2 None) (solve_grid 2 None) 10)
                (D_alpha_K_values gamma_at_1 (solve_grid 2 None) 1 10)
                1 (length (solve_grid 2 None)))
    (zeros (length (solve_grid 2 None)))
    = ok (zeros (length (solve_grid 2 None)), tt, 5%Z, "no progress"%string) /\
  5%Z <> 1%Z /\
  solve_lssvr_bratu gamma_at_1 unit (fsolve_stub 5 "no progress")
    0 7 1 1 2 10 None =
  ok (Solution (solve_grid 2 None) (zeros (length (solve_grid 2 None)))
        (pairwise (solve_grid 2 None) (solve_grid 2 None) 10)
        (D_alpha_K_values gamma_at_1 (solve_grid 2 None) 1 10)
        (7 - 0),
      [warning 5 "no progress"]).
Proof.
  assert (H1 : build_kernel_matrices gamma_at_1 (solve_grid 2 None) 1 10 =
               ok (pairwise (solve_grid 2 None) (solve_grid 2 None) 10,
                   D_alpha_K_values gamma_at_1 (solve_grid 2 None) 1 10))
    by (apply build_kernel_matrices_ok; lra).
  assert (H3 : 5%Z <> 1%Z) by discriminate.
  split; [assumption|]. split; [reflexivity|]. split; [assumption|].
  exact (solve_nonconvergence_warns gamma_at_1 unit
           (fsolve_stub 5 "no progress") 0 7 1 1 2 10 None _ _ _ tt 5%Z
           "no progress"%string H1 eq_refl H3).
Defined.

Lemma solve_no_validation_witness :
  0 < 1 <= 1 /\
  exists K D,
    build_kernel_matrices gamma_at_1 (solve_grid 1 None) 1 (-1) = ok (K, D) /\
    solve_lssvr_bratu gamma_at_1 unit (fsolve_stub 1 "converged")
      0 7 1 1 1 (-1) None =
    (r <- fsolve_stub 1 "converged"
            (fun a => lssvr_bratu_residual a K D 1
                        (length (solve_grid 1 None)))
            (zeros (length (solve_grid 1 None))) ;;
     ok (solve_finish 0 7 (solve_grid 1 None) K D r)).
Proof.
  assert (H1 : 0 < 1 <= 1) by lra.
  split; [assumption|].
  exact (solve_no_validation gamma_at_1 unit (fsolve_stub 1 "converged")
           0 7 1 1 1 (-1) None H1).
Defined.

(** C3 (as stated) fails: no function of the returned outputs gives the
    status the solver reported.  On the two-point default grid a solver
    that reports [ier = 1] and one that reports [ier = 5], both with the
    zero coefficients, lead to the same returned value. *)
Lemma solve_status_not_returned :
  ~ exists indicator : solution -> Z,
      forall (fsolve : (vec -> result vec) -> vec ->
                       result (vec * unit * Z * string))
             (K D : mat) (alpha : vec) (ier : Z) (msg : string)
             (s : solution) (printed : list string),
        build_kernel_matrices gamma_at_1 (linspace 0 1 2) 1 10 = ok (K, D) ->
        fsolve (fun a => lssvr_bratu_residual a K D 1 2) (zeros 2)
          = ok (alpha, tt, ier, msg) ->
        solve_lssvr_bratu gamma_at_1 unit fsolve 0 7 1 1 2 10 None
          = ok (s, printed) ->
        indicator s = ier.
Proof.
  intros [indicator H].
  assert (HB : build_kernel_matrices gamma_at_1 (linspace 0 1 2) 1 10 =
               ok (pairwise (linspace 0 1 2) (linspace 0 1 2) 10,
                   D_alpha_K_values gamma_at_1 (linspace 0 1 2) 1 10))
    by (apply build_kernel_matrices_ok; lra).
  assert (HS : forall ier msg,
             solve_lssvr_bratu gamma_at_1 unit (fsolve_stub ier msg)
               0 7 1 1 2 10 None =
             ok (solve_finish 0 7 (linspace 0 1 2)
                   (pairwise (linspace 0 1 2) (linspace 0 1 2) 10)
                   (D_alpha_K_values gamma_at_1 (linspace 0 1 2) 1 10)
                   (zeros 2, tt, ier, msg))).
  { intros ier msg. rewrite solve_lssvr_bratu_unfold. cbv zeta.
    change (solve_grid 2 None) with (linspace 0 1 2).
    rewrite HB. reflexivity. }
  pose proof (H (fsolve_stub 1 "converged") _ _ _ _ _ _ _ HB eq_refl
                (HS 1%Z "converged"%string)) as E1.
  pose proof (H (fsolve_stub 5 "no progress") _ _ _ _ _ _ _ HB eq_refl
                (HS 5%Z "no progress"%string)) as E5.
  simpl in E1, E5. rewrite E1 in E5. discriminate.
Qed.

(** C4 (as stated) fails: with [N = 1] and the default grid the kernel
    matrices are built, [K = [[1]]] and [D = [[0]]], the solver is called,
    and when it returns its starting point as converged the solve returns
    normally. *)
Lemma solve_N_1_not_rejected :
  build_kernel_matrices gamma_at_1 (linspace 0 1 1) 1 10
    = ok ([[1]], [[0]]) /\
  solve_lssvr_bratu gamma_at_1 unit (fsolve_stub 1 "converged")
    0 7 1 1 1 10 None
    = ok (Solution [0] [0] [[1]] [[0]] (7 - 0), []) /\
  ~ exists e,
      solve_lssvr_bratu gamma_at_1 unit (fsolve_stub 1 "converged")
        0 7 1 1 1 10 None = raise e.
Proof.
  assert (HB : build_kernel_matrices gamma_at_1 (linspace 0 1 1) 1 10
               = ok ([[1]], [[0]])).
  { rewrite build_kernel_matrices_ok by lra.
    change (linspace 0 1 1) with [0]. rewrite pairwise_one_point.
    reflexivity. }
  assert (HS : solve_lssvr_bratu gamma_at_1 unit (fsolve_stub 1 "converged")
                 0 7 1 1 1 10 None
               = ok (Solution [0] [0] [[1]] [[0]] (7 - 0), [])).
  { rewrite solve_lssvr_bratu_unfold. cbv zeta.
    change (solve_grid 1 None) with (linspace 0 1 1).
    rewrite HB. reflexivity. }
  split; [exact HB|]. split; [exact HS|].
  intros [e He]. rewrite HS in He. discriminate.
Qed.

(* ================================================================== *)
(** * Further properties of the program *)

(** ** The fractional derivative operator *)

Lemma for_each_length (body : vec -> nat -> result vec) :
  forall (l : list nat) (D0 D : vec),
    (forall D1 D2 i, In i l -> body D1 i = ok D2 ->
       exists v, D2 = upd D1 i v) ->
    for_each l body D0 = ok D ->
    length D = length D0.
Proof.
  induction l as [|i l IH]; intros D0 D Hbody E; simpl in E.
  - now inversion E.
  - destruct (body D0 i) as [D1|e] eqn:E1; simpl in E; [|discriminate].
    destruct (Hbody D0 D1 i (or_introl eq_refl) E1) as [v ->].
    rewrite (IH (upd D0 i v) D); auto using length_upd.
    intros D1 D2 j Hj. apply Hbody. now right.
Qed.

Lemma weight_raises (alpha : R) :
  1 < alpha -> weight 1 alpha = raise ZeroDivisionError.
Proof.
  intros Ha. unfold weight, int_pow. simpl Nat.sub.
  destruct (Req_dec_T (1 - alpha) 0); [lra|].
  simpl. destruct (Rlt_dec (1 - alpha) 0); [reflexivity | lra].
Qed.

Lemma spacing_ok (n : nat) (x_grid : option vec) :
  (2 <= n)%nat -> x_grid <> Some [] -> exists h, spacing n x_grid = ok h.
Proof.
  intros Hn Hg. unfold spacing.
  destruct x_grid as [[|x0 x]|].
  - congruence.
  - eauto.
  - destruct (Nat.eqb_spec n 1); [lia | eauto].
Qed.

Lemma length_lin_comb (a b : R) :
  forall u v : vec, length u = length v -> length (lin_comb a u b v) = length u.
Proof.
  induction u as [|x u IH]; intros [|y v] H; simpl in *; try discriminate;
    auto.
Qed.

Lemma nth_lin_comb (a b : R) :
  forall (u v : vec) (j : nat), length u = length v ->
    nth j (lin_comb a u b v) 0 = a * nth j u 0 + b * nth j v 0.
Proof.
  induction u as [|x u IH]; intros [|y v] [|j] H; simpl in *;
    try discriminate; try lra.
  apply IH. lia.
Qed.

Lemma sum_below_lin_comb (a b : R) (f g : nat -> R) (n : nat) :
  sum_below (fun j => a * f j + b * g j) n =
  a * sum_below f n + b * sum_below g n.
Proof.
  induction n as [|n IH]; simpl; [lra|]. rewrite IH. lra.
Qed.

Lemma lin_comb_map (a b : R) (f g : nat -> R) (l : list nat) :
  lin_comb a (map f l) b (map g l) = map (fun i => a * f i + b * g i) l.
Proof.
  induction l as [|i l IH]; simpl; [reflexivity|]. now rewrite IH.
Qed.

(** The weights of one entry telescope. *)
Lemma sum_below_weights (alpha : R) (i : nat) :
  sum_below (fun j => L1_weight (i - j) alpha) i =
  pow_value i (1 - alpha) - pow_value 0 (1 - alpha).
Proof.
  assert (G : forall m, (m <= i)%nat ->
            sum_below (fun j => L1_weight (i - j) alpha) m =
            pow_value i (1 - alpha) - pow_value (i - m) (1 - alpha)).
  { induction m as [|m IH]; intros Hm; simpl.
    - rewrite Nat.sub_0_r. lra.
    - rewrite IH by lia. unfold L1_weight.
      replace (i - m - 1)%nat with (i - S m)%nat by lia. lra. }
  rewrite (G i) by lia. now rewrite Nat.sub_diag.
Qed.

Section L1_further.

Variable Gamma : R -> R.

(** Edge inputs.  One sample: without a grid the spacing [1.0 / (n - 1)]
    raises [ZeroDivisionError], with a non-empty grid the result is [[0]].
    No sample: without a grid the result is empty.  An empty grid raises
    [IndexError] whatever the samples are. *)
Theorem L1_caputo_edge_inputs (alpha : R) :
  (forall v, L1_caputo Gamma [v] alpha None = raise ZeroDivisionError) /\
  (forall v x0 x, L1_caputo Gamma [v] alpha (Some (x0 :: x)) = ok [0]) /\
  L1_caputo Gamma [] alpha None = ok [] /\
  (forall u, L1_caputo Gamma u alpha (Some []) = raise IndexError).
Proof.
  repeat split; intros; reflexivity.
Qed.

Lemma L1_caputo_above_1 (u : vec) (alpha : R) (x_grid : option vec) :
  1 < alpha ->
  (2 <= length u)%nat ->
  x_grid <> Some [] ->
  L1_caputo Gamma u alpha x_grid = raise ZeroDivisionError.
Proof.
  intros Ha Hn Hg. unfold L1_caputo. cbv zeta.
  destruct (spacing_ok (length u) x_grid Hn Hg) as [h ->]. cbn [bind].
  unfold range. destruct (length u) as [|[|m]]; try lia.
  simpl Nat.sub. cbn [seq for_each].
  unfold inner_sum at 1, range. cbn [Nat.sub seq for_each].
  rewrite weight_raises by exact Ha. reflexivity.
Qed.

(** An order above 1 raises [ZeroDivisionError] as soon as there are two
    samples: the weight of the first step needs [0 ** (1 - alpha)] with a
    negative exponent. *)
Theorem L1_caputo_alpha_above_1_raises (u : vec) (alpha : R)
    (x_grid : option vec) :
  1 < alpha ->
  (2 <= length u)%nat ->
  x_grid <> Some [] ->
  L1_caputo Gamma u alpha x_grid = raise ZeroDivisionError.
Proof.
  intros Ha Hn Hg. unfold L1_caputo. cbv zeta.
  destruct (spacing_ok (length u) x_grid Hn Hg) as [h ->]. cbn [bind].
  unfold range. destruct (length u) as [|[|m]]; try lia.
  simpl Nat.sub. cbn [seq for_each].
  unfold inner_sum at 1, range. cbn [Nat.sub seq for_each].
  rewrite weight_raises by exact Ha. reflexivity.
Qed.

(** Whatever the order, a returned result has as many entries as there are
    samples, and its first entry is [0]. *)
Theorem L1_caputo_length (u : vec) (alpha : R) (x_grid : option vec)
    (D : vec) :
  L1_caputo Gamma u alpha x_grid = ok D ->
  length D = length u /\
  ((1 <= length u)%nat -> nth_error D 0 = Some 0).
Proof.
  unfold L1_caputo. cbv zeta. intros E.
  destruct (spacing (length u) x_grid) as [h|e]; simpl in E; [|discriminate].
  assert (Hbody : forall (D1 D2 : vec) (i : nat),
             In i (range 1 (length u)) ->
             (s <- inner_sum u alpha i ;;
              setitem D1 i (1 / (Gamma (2 - alpha) * real_pow h alpha) * s))
             = ok D2 ->
             exists v, D2 = upd D1 i v).
  { intros D1 D2 i _ E'.
    destruct (inner_sum u alpha i) as [s|]; simpl in E'; [|discriminate].
    apply setitem_inv in E'. destruct E' as [_ ->]. eauto. }
  split.
  - rewrite (for_each_length _ _ _ _ Hbody E). apply length_zeros.
  - intros Hn.
    assert (H0 : ~ In 0%nat (range 1 (length u)))
      by (unfold range; rewrite in_seq; lia).
    rewrite (for_each_preserve _ 0%nat _ _ _ Hbody H0 E).
    apply nth_error_zeros. lia.
Qed.

Lemma L1_values_lin_comb (a b : R) (u v : vec) (alpha h : R) :
  length u = length v ->
  L1_values Gamma (lin_comb a u b v) alpha h =
  lin_comb a (L1_values Gamma u alpha h) b (L1_values Gamma v alpha h).
Proof.
  intros HL. unfold L1_values.
  rewrite length_lin_comb by exact HL. rewrite <- HL.
  rewrite lin_comb_map. apply map_ext. intros [|i]; unfold L1_entry; [lra|].
  rewrite (sum_below_ext _
             (fun j => a * L1_term u alpha (S i) j
                       + b * L1_term v alpha (S i) j)).
  - rewrite sum_below_lin_comb. ring.
  - intros j Hj. unfold L1_term. rewrite !nth_lin_comb by exact HL. ring.
Qed.

(** The operator is linear in the samples. *)
Theorem L1_caputo_linear (a b : R) (u v : vec) (alpha : R)
    (x_grid : option vec) :
  alpha <= 1 ->
  length u = length v ->
  L1_caputo Gamma (lin_comb a u b v) alpha x_grid =
  (Du <- L1_caputo Gamma u alpha x_grid ;;
   Dv <- L1_caputo Gamma v alpha x_grid ;;
   ok (lin_comb a Du b Dv)).
Proof.
  intros Ha HL. rewrite !L1_caputo_ok by exact Ha.
  rewrite length_lin_comb by exact HL. rewrite <- HL.
  destruct (spacing (length u) x_grid) as [h|e]; [|reflexivity].
  cbn [bind]. now rewrite L1_values_lin_comb.
Qed.

(** The entry of index [i] depends on the samples of index at most [i]
    only. *)
Theorem L1_caputo_causal (u v : vec) (alpha : R) (x_grid : option vec)
    (Du Dv : vec) (i : nat) :
  alpha <= 1 ->
  length u = length v ->
  L1_caputo Gamma u alpha x_grid = ok Du ->
  L1_caputo Gamma v alpha x_grid = ok Dv ->
  (forall j, (j <= i)%nat -> nth j u 0 = nth j v 0) ->
  nth_error Du i = nth_error Dv i.
Proof.
  intros Ha HL. rewrite !L1_caputo_ok by exact Ha. rewrite <- HL.
  destruct (spacing (length u) x_grid) as [h|e]; cbn [bind];
    [|discriminate].
  intros Eu Ev Hagree. inversion Eu; inversion Ev; subst Du Dv.
  destruct (Nat.lt_ge_cases i (length u)) as [Hi|Hi].
  - rewrite !nth_error_L1_values by lia. f_equal.
    destruct i as [|i]; [reflexivity|]. unfold L1_entry. f_equal.
    apply sum_below_ext. intros j Hj. unfold L1_term.
    rewrite (Hagree (j + 1)%nat), (Hagree j) by lia. reflexivity.
  - rewrite !(proj2 (nth_error_None _ _)); auto;
      rewrite length_L1_values; lia.
Qed.

(** On samples of a linear function, [u[j] = a + b * (j * h)], and for an
    order in (0,1), the scheme gives the Caputo derivative of the linear
    function at the grid points: [D[i] = b * (i*h)^(1-alpha) /
    Gamma(2-alpha)]. *)
Theorem L1_caputo_linear_samples (n : nat) (a b alpha h : R)
    (x_grid : option vec) :
  (2 <= n)%nat ->
  0 < alpha < 1 ->
  0 < h ->
  uniform_grid n h x_grid ->
  exists D,
    L1_caputo Gamma (map (fun j => a + b * (INR j * h)) (seq 0 n)) alpha
      x_grid = ok D /\
    forall i, (1 <= i < n)%nat ->
      nth_error D i =
      Some (b * Rpower (INR i * h) (1 - alpha) / Gamma (2 - alpha)).
Proof.
  intros Hn Ha Hh HU.
  set (u := map (fun j => a + b * (INR j * h)) (seq 0 n)).
  assert (Hlen : length u = n) by (unfold u; now rewrite length_map, length_seq).
  exists (L1_values Gamma u alpha h).
  rewrite L1_caputo_ok by lra. rewrite Hlen.
  rewrite (spacing_uniform _ h) by assumption.
  split; [reflexivity|].
  intros i Hi. rewrite nth_error_L1_values by lia. f_equal.
  destruct i as [|i]; [lia|]. unfold L1_entry.
  assert (Hu : forall j, (j < n)%nat -> nth j u 0 = a + b * (INR j * h)).
  { intros j Hj. unfold u.
    rewrite (nth_indep _ 0 ((fun j => a + b * (INR j * h)) 0%nat))
      by (rewrite length_map, length_seq; lia).
    rewrite (map_nth (fun j => a + b * (INR j * h))), seq_nth by lia.
    reflexivity. }
  rewrite (sum_below_ext _ (fun j => b * h * L1_weight (S i - j) alpha + 0 * 0)).
  - rewrite sum_below_lin_comb, sum_below_weights.
    rewrite pow_value_Rpower by lia.
    unfold pow_value. destruct (Req_dec_T (1 - alpha) 0); [lra|].
    unfold L1_coeff. rewrite real_pow_Rpower by assumption.
    assert (Hi0 : 0 < INR (S i)) by (apply lt_0_INR; lia).
    rewrite <- Rpower_mult_distr by assumption.
    replace (Rpower h (1 - alpha)) with (h * / Rpower h alpha).
    + unfold Rdiv. rewrite Rinv_mult. ring.
    + unfold Rminus. rewrite Rpower_plus, Rpower_Ropp, Rpower_1 by assumption.
      reflexivity.
  - intros j Hj. unfold L1_term.
    rewrite !Hu by lia. rewrite plus_INR. simpl INR. ring.
Qed.

End L1_further.

(** ** The default grid *)

Lemma nth_linspace (start stop : R) (n i : nat) :
  (2 <= n)%nat -> (i < n)%nat ->
  nth i (linspace start stop n) 0 =
  start + INR i * ((stop - start) / (INR n - 1)).
Proof.
  intros Hn Hi. unfold linspace.
  destruct n as [|[|m]]; try lia.
  set (f := fun i => start + INR i * ((stop - start) / (INR (S (S m)) - 1))).
  rewrite (nth_indep _ 0 (f 0%nat)) by (rewrite length_map, length_seq; lia).
  rewrite (map_nth f), seq_nth by lia. reflexivity.
Qed.

Lemma linspace_uniform (n : nat) :
  (2 <= n)%nat -> uniform_grid n (1 / (INR n - 1)) (Some (linspace 0 1 n)).
Proof.
  intros Hn. split; [apply length_linspace|].
  intros i Hi. rewrite !nth_linspace by lia. simpl INR. lra.
Qed.

Lemma linspace_ends (n : nat) :
  (2 <= n)%nat ->
  nth_error (linspace 0 1 n) 0 = Some 0 /\
  nth_error (linspace 0 1 n) (n - 1) = Some 1.
Proof.
  intros Hn.
  assert (HL := length_linspace 0 1 n).
  split.
  - rewrite (nth_error_nth' _ 0) by lia. f_equal.
    rewrite nth_linspace by lia. simpl INR. lra.
  - rewrite (nth_error_nth' _ 0) by lia. f_equal.
    rewrite nth_linspace by lia. rewrite minus_INR by lia. simpl INR.
    assert (INR n - 1 <> 0).
    { apply lt_INR in Hn. simpl in Hn. lra. }
    field. assumption.
Qed.

Section Grid_further.

Variable Gamma : R -> R.

(** The default grid of the operator is the one [np.linspace(0, 1, n)]
    gives: passing that grid explicitly changes nothing. *)
Theorem L1_caputo_default_grid (u : vec) (alpha : R) :
  (2 <= length u)%nat ->
  L1_caputo Gamma u alpha (Some (linspace 0 1 (length u))) =
  L1_caputo Gamma u alpha None.
Proof.
  intros Hn. unfold L1_caputo. cbv zeta.
  rewrite (spacing_uniform _ (1 / (INR (length u) - 1)) (Some _))
    by (auto using linspace_uniform).
  rewrite (spacing_uniform _ (1 / (INR (length u) - 1)) None)
    by (auto; reflexivity).
  reflexivity.
Qed.

End Grid_further.

(** ** The kernel *)

Lemma exp_le_1 (z : R) : z <= 0 -> exp z <= 1.
Proof.
  intros [Hz| ->].
  - rewrite <- exp_0. left. now apply exp_increasing.
  - rewrite exp_0. lra.
Qed.

Lemma exp_eq_1 (z : R) : z <= 0 -> exp z = 1 -> z = 0.
Proof.
  intros [Hz|Hz] E; [|assumption].
  apply exp_increasing in Hz. rewrite exp_0 in Hz. lra.
Qed.

Lemma rbf_kernel_facts (x y gamma : R) :
  rbf_kernel x y gamma = rbf_kernel y x gamma /\
  0 < rbf_kernel x y gamma /\
  (0 <= gamma -> rbf_kernel x y gamma <= 1) /\
  (0 < gamma -> (rbf_kernel x y gamma = 1 <-> x = y)).
Proof.
  unfold rbf_kernel.
  assert (Hsq := pow2_ge_0 (x - y)).
  split; [f_equal; ring|]. split; [apply exp_pos|]. split.
  - intros Hg. apply exp_le_1. nra.
  - intros Hg. split.
    + intros E. apply exp_eq_1 in E; [|nra].
      assert (Hd : (x - y) ^ 2 = 0) by nra.
      assert (x - y = 0) by nra. lra.
    + intros ->. replace (- gamma * (y - y) ^ 2) with 0 by ring.
      apply exp_0.
Qed.

(** The kernel is symmetric and positive; for [gamma >= 0] it is at most
    [1], and for [gamma > 0] it is [1] exactly when the two points
    coincide. *)
Theorem rbf_kernel_range (x y gamma : R) :
  rbf_kernel x y gamma = rbf_kernel y x gamma /\
  0 < rbf_kernel x y gamma /\
  (0 <= gamma -> rbf_kernel x y gamma <= 1) /\
  (0 < gamma -> (rbf_kernel x y gamma = 1 <-> x = y)).
Proof.
  unfold rbf_kernel.
  assert (Hsq := pow2_ge_0 (x - y)).
  split; [f_equal; ring|]. split; [apply exp_pos|]. split.
  - intros Hg. apply exp_le_1. nra.
  - intros Hg. split.
    + intros E. apply exp_eq_1 in E; [|nra].
      assert (Hd : (x - y) ^ 2 = 0) by nra.
      assert (x - y = 0) by nra. lra.
    + intros ->. replace (- gamma * (y - y) ^ 2) with 0 by ring.
      apply exp_0.
Qed.

(** ** The kernel matrices *)

Lemma map_const_seq {A : Type} (c : A) (a n : nat) :
  map (fun _ : nat => c) (seq a n) = repeat c n.
Proof.
  revert a; induction n as [|n IH]; intros a; simpl; [reflexivity|].
  now rewrite IH.
Qed.

Lemma nth_error_column (r c : nat) (M : mat) (i j : nat) :
  shape r c M -> (j < r)%nat ->
  nth_error (column M i) j = Some (entry M j i).
Proof.
  intros [HL _] Hj. unfold column, entry.
  rewrite nth_error_map, (nth_error_nth' M [] ) by lia. reflexivity.
Qed.

Section Kernel_further.

Variable Gamma : R -> R.

Lemma L1_entry_alpha_1 (u : vec) (h : R) (i : nat) :
  L1_entry Gamma u 1 h i = 0.
Proof.
  destruct i as [|i]; [reflexivity|]. unfold L1_entry.
  rewrite sum_below_zero; [lra|].
  intros j Hj. unfold L1_term. rewrite L1_weight_alpha_1. lra.
Qed.

Lemma entry_D_alpha_K_values (x : vec) (alpha gamma : R) (j i : nat) :
  (j < length x)%nat -> (i < length x)%nat ->
  entry (D_alpha_K_values Gamma x alpha gamma) j i =
  L1_entry Gamma (column (pairwise x x gamma) i) alpha (grid_spacing x) j.
Proof.
  intros Hj Hi. unfold entry.
  apply nth_error_nth.
  now apply nth_error_D_alpha_K_values.
Qed.

Lemma L1_caputo_column (x : vec) (alpha gamma : R) (i : nat) :
  alpha <= 1 -> (i < length x)%nat ->
  L1_caputo Gamma (column (pairwise x x gamma) i) alpha (Some x) =
  ok (column (D_alpha_K_values Gamma x alpha gamma) i).
Proof.
  intros Ha Hi. rewrite L1_caputo_ok by exact Ha.
  assert (HLc : length (column (pairwise x x gamma) i) = length x).
  { rewrite length_column. apply (proj1 (shape_pairwise x x gamma)). }
  rewrite HLc. unfold spacing.
  destruct x as [|x0 x'] eqn:Ex; [simpl in Hi; lia|].
  rewrite <- Ex in *. cbn [bind].
  replace ((last x 0 - x0) / (INR (length x) - 1)) with (grid_spacing x)
    by (unfold grid_spacing; rewrite Ex; reflexivity).
  f_equal. apply vec_ext.
  - rewrite length_L1_values, HLc, length_column.
    symmetry. apply (proj1 (shape_D_alpha_K_values Gamma x alpha gamma)).
  - intros j Hj. rewrite length_L1_values, HLc in Hj.
    rewrite nth_error_L1_values by lia.
    rewrite (nth_error_column (length x) (length x))
      by (auto using shape_D_alpha_K_values).
    now rewrite entry_D_alpha_K_values.
Qed.

(** For [alpha] in (0,1] the builder raises nothing; [D] is [N] by [N],
    its column [i] is the fractional derivative operator applied to column
    [i] of [K] on the grid, and its first row is zero. *)
Theorem build_kernel_matrices_columns (x : vec) (alpha gamma : R) :
  0 < alpha <= 1 ->
  exists K D,
    build_kernel_matrices Gamma x alpha gamma = ok (K, D) /\
    shape (length x) (length x) D /\
    forall i, (i < length x)%nat ->
      L1_caputo Gamma (column K i) alpha (Some x) = ok (column D i) /\
      entry D 0 i = 0.
Proof.
  intros Ha.
  exists (pairwise x x gamma), (D_alpha_K_values Gamma x alpha gamma).
  split; [apply build_kernel_matrices_ok; lra|].
  split; [apply shape_D_alpha_K_values|].
  intros i Hi. split; [apply L1_caputo_column; [lra | exact Hi]|].
  rewrite entry_D_alpha_K_values by lia. reflexivity.
Qed.

Lemma build_kernel_matrices_above_1 (x : vec) (alpha gamma : R) :
  1 < alpha -> (2 <= length x)%nat ->
  build_kernel_matrices Gamma x alpha gamma = raise ZeroDivisionError.
Proof.
  intros Ha Hn. unfold build_kernel_matrices. cbv zeta. unfold range.
  rewrite Nat.sub_0_r.
  destruct (length x) as [|m] eqn:En; [lia|].
  cbn [seq for_each].
  rewrite L1_caputo_above_1.
  - reflexivity.
  - exact Ha.
  - rewrite length_column, (proj1 (shape_pairwise x x gamma)). lia.
  - intros E. inversion E as [E']. rewrite E' in En. discriminate.
Qed.

(** An order above 1 with a grid of at least two points makes the builder
    raise [ZeroDivisionError]. *)
Theorem build_kernel_matrices_alpha_above_1_raises (x : vec)
    (alpha gamma : R) :
  1 < alpha -> (2 <= length x)%nat ->
  build_kernel_matrices Gamma x alpha gamma = raise ZeroDivisionError.
Proof.
  intros Ha Hn. unfold build_kernel_matrices. cbv zeta. unfold range.
  rewrite Nat.sub_0_r.
  destruct (length x) as [|m] eqn:En; [lia|].
  cbn [seq for_each].
  rewrite L1_caputo_above_1.
  - reflexivity.
  - exact Ha.
  - rewrite length_column, (proj1 (shape_pairwise x x gamma)). lia.
  - intros E. inversion E as [E']. rewrite E' in En. discriminate.
Qed.

Lemma D_alpha_K_values_alpha_1 (x : vec) (gamma : R) :
  D_alpha_K_values Gamma x 1 gamma = repeat (zeros (length x)) (length x).
Proof.
  unfold D_alpha_K_values. cbv zeta.
  rewrite (map_ext _ (fun _ => zeros (length x))).
  - apply map_const_seq.
  - intros j. rewrite (map_ext _ (fun _ => 0)).
    + apply map_const_seq.
    + intros i. apply L1_entry_alpha_1.
Qed.


(** For [gamma > 0] an entry of the kernel matrix is at most [1], and it is
    [1] exactly when the two grid points coincide. *)
Theorem kernel_matrix_off_diagonal (x : vec) (alpha gamma : R) (K D : mat)
    (j i : nat) :
  0 < gamma ->
  build_kernel_matrices Gamma x alpha gamma = ok (K, D) ->
  (j < length x)%nat -> (i < length x)%nat ->
  entry K j i <= 1 /\
  (entry K j i = 1 <-> nth j x 0 = nth i x 0).
Proof.
  intros Hg HB Hj Hi. apply build_kernel_matrices_K in HB. subst K.
  rewrite entry_pairwise by assumption.
  destruct (rbf_kernel_facts (nth j x 0) (nth i x 0) gamma)
    as (_ & _ & Hle & Heq).
  split; [apply Hle; lra | now apply Heq].
Qed.

End Kernel_further.

(** ** The collocation residual *)

Lemma length_residual_values (alpha : vec) (K D : mat) (lam : R) (N : nat) :
  length (residual_values alpha K D lam N) = N.
Proof. unfold residual_values. now rewrite length_map, length_seq. Qed.

Lemma nth_error_residual_values (alpha : vec) (K D : mat) (lam : R)
    (N i : nat) :
  (i < N)%nat ->
  nth_error (residual_values alpha K D lam N) i =
  Some (if ((i =? 0) || (i =? N - 1))%nat
        then matvec_entry K alpha i
        else matvec_entry D alpha i + lam * exp (matvec_entry K alpha i)).
Proof.
  intros Hi. unfold residual_values.
  rewrite nth_error_map, nth_error_seq.
  destruct (Nat.ltb_spec i N); [reflexivity | lia].
Qed.

Lemma residual_ok (alpha : vec) (K D : mat) (lam : R) (N : nat) :
  (1 <= N)%nat ->
  length alpha = N ->
  shape N N K ->
  shape N N D ->
  lssvr_bratu_residual alpha K D lam N = ok (residual_values alpha K D lam N).
Proof.
  intros HN Ha HK HD. unfold lssvr_bratu_residual.
  rewrite (matvec_ok N N K), (matvec_ok N N D) by assumption.
  cbn [bind].
  assert (HLK : length K = N) by apply HK.
  assert (HLD : length D = N) by apply HD.
  rewrite !getitem_matvec by lia. cbn [bind].
  rewrite setitem_ok by (rewrite length_zeros; lia). cbn [bind].
  rewrite setitem_ok by (rewrite length_upd, length_zeros; lia). cbn [bind].
  set (F0 := upd (upd (zeros N) 0 _) (N - 1) _).
  assert (HF0 : length F0 = N).
  { unfold F0. now rewrite !length_upd, length_zeros. }
  unfold range.
  destruct (for_each_fill
              (fun i => matvec_entry D alpha i
                        + lam * exp (matvec_entry K alpha i))
              (fun F i =>
                 d <- getitem (map (fun row => dot row alpha) D) i ;;
                 ui <- getitem (map (fun row => dot row alpha) K) i ;;
                 setitem F i (d + lam * exp ui))
              (N - 1 - 1) 1%nat F0)
    as (F & EF & HL & Hin & Hout).
  - intros F i Hi. rewrite !getitem_matvec by lia. reflexivity.
  - lia.
  - rewrite EF. f_equal. apply vec_ext.
    + rewrite length_residual_values. lia.
    + intros i Hi. rewrite nth_error_residual_values by lia.
      destruct (Nat.eqb_spec i 0) as [->|Hi0]; simpl orb.
      * rewrite Hout by lia. unfold F0.
        destruct (Nat.eq_dec (N - 1) 0) as [Z|NZ].
        -- rewrite Z. apply nth_error_upd_same.
           rewrite length_upd, length_zeros; lia.
        -- rewrite nth_error_upd_other by lia.
           apply nth_error_upd_same. rewrite length_zeros; lia.
      * destruct (Nat.eqb_spec i (N - 1)) as [->|HiN].
        -- rewrite Hout by lia. unfold F0.
           apply nth_error_upd_same. rewrite length_upd, length_zeros; lia.
        -- apply Hin. lia.
Qed.

Lemma matvec_wrong_length (N : nat) (M : mat) (a : vec) :
  shape N N M -> (1 <= N)%nat -> length a <> N ->
  matvec M a = raise ValueError.
Proof.
  intros [HL HF] HN Ha. unfold matvec.
  destruct M as [|row M]; [simpl in HL; lia|].
  inversion HF as [|? ? Hrow _]. subst.
  simpl forallb.
  destruct (Nat.eqb_spec (length row) (length a)); [congruence|].
  reflexivity.
Qed.

Lemma dot_zeros_r (r : vec) (n : nat) : dot r (zeros n) = 0.
Proof.
  revert n; induction r as [|x r IH]; intros [|n]; simpl; try reflexivity.
  unfold zeros in IH. rewrite IH. lra.
Qed.

Lemma dot_zeros_l (n : nat) (a : vec) : dot (zeros n) a = 0.
Proof.
  revert a; induction n as [|n IH]; intros [|y a]; simpl; try reflexivity.
  unfold zeros in IH. rewrite IH. lra.
Qed.

Lemma nth_repeat_row (r : vec) (n j : nat) :
  (j < n)%nat -> nth j (repeat r n) [] = r.
Proof.
  intros Hj. apply nth_error_nth. now apply nth_error_repeat.
Qed.

(** Without collocation points ([N = 0]) the residual always raises:
    [IndexError] from [F[0] = u[0]] when both products are defined,
    [ValueError] otherwise. *)
Theorem residual_N_0_raises (alpha : vec) (K D : mat) (lam : R) :
  lssvr_bratu_residual alpha K D lam 0 = raise IndexError \/
  lssvr_bratu_residual alpha K D lam 0 = raise ValueError.
Proof.
  unfold lssvr_bratu_residual, matvec.
  destruct (forallb _ K); [|now right].
  destruct (forallb _ D); [|now right].
  cbn [bind]. left.
  destruct (getitem _ 0) as [u0|e] eqn:E; [reflexivity|].
  unfold getitem in E. destruct (nth_error _ 0); inversion E. reflexivity.
Qed.

Lemma residual_wrong_length_helper (alpha : vec) (K D : mat) (lam : R)
    (N : nat) :
  (1 <= N)%nat ->
  shape N N K ->
  length alpha <> N ->
  lssvr_bratu_residual alpha K D lam N = raise ValueError.
Proof.
  intros HN HK Ha. unfold lssvr_bratu_residual.
  now rewrite (matvec_wrong_length N).
Qed.

(** A coefficient vector whose length is not the size of the [N] by [N]
    kernel matrix makes the residual raise [ValueError]. *)
Theorem residual_wrong_length_raises (alpha : vec) (K D : mat) (lam : R)
    (N : nat) :
  (1 <= N)%nat ->
  shape N N K ->
  length alpha <> N ->
  lssvr_bratu_residual alpha K D lam N = raise ValueError.
Proof.
  intros HN HK Ha. unfold lssvr_bratu_residual.
  now rewrite (matvec_wrong_length N).
Qed.

(** At the zero coefficients, the initial guess of the solver, the residual
    is [0] at both ends and [lambda] at every interior point; for
    [lambda = 0] the initial guess is an exact root. *)
Theorem residual_at_zero (K D : mat) (lam : R) (N : nat) :
  (2 <= N)%nat ->
  shape N N K ->
  shape N N D ->
  exists F,
    lssvr_bratu_residual (zeros N) K D lam N = ok F /\
    length F = N /\
    nth_error F 0 = Some 0 /\
    nth_error F (N - 1) = Some 0 /\
    (forall i, (1 <= i <= N - 2)%nat -> nth_error F i = Some lam) /\
    (lam = 0 -> F = zeros N).
Proof.
  intros HN HK HD.
  exists (residual_values (zeros N) K D lam N).
  rewrite residual_ok by (auto using length_zeros; lia).
  assert (E : forall i, (i < N)%nat ->
            nth_error (residual_values (zeros N) K D lam N) i =
            Some (if ((i =? 0) || (i =? N - 1))%nat then 0 else lam)).
  { intros i Hi. rewrite nth_error_residual_values by lia.
    unfold matvec_entry. rewrite !dot_zeros_r, exp_0.
    destruct ((i =? 0) || (i =? N - 1))%nat; f_equal; lra. }
  split; [reflexivity|]. split; [apply length_residual_values|].
  split; [rewrite E by lia; reflexivity|].
  split.
  - rewrite E by lia. rewrite Nat.eqb_refl, orb_true_r. reflexivity.
  - split.
    + intros i Hi. rewrite E by lia.
      destruct (Nat.eqb_spec i 0), (Nat.eqb_spec i (N - 1)); simpl;
        try lia; reflexivity.
    + intros ->. apply vec_ext.
      * now rewrite length_residual_values, length_zeros.
      * intros i Hi. rewrite length_residual_values in Hi.
        rewrite E, nth_error_zeros by lia.
        destruct ((i =? 0) || (i =? N - 1))%nat; reflexivity.
Qed.

(** With a single collocation point the two boundary assignments hit the
    same entry and the residual is [[(K alpha)[0]]]. *)
Lemma residual_single_point (alpha : vec) (K D : mat) (lam : R) :
  length alpha = 1%nat ->
  shape 1 1 K ->
  shape 1 1 D ->
  lssvr_bratu_residual alpha K D lam 1 = ok [matvec_entry K alpha 0].
Proof.
  intros Ha HK HD. rewrite residual_ok by (auto; lia). reflexivity.
Qed.

Section Residual_further.

Variable Gamma : R -> R.

(** At [alpha = 1], where [D] is the zero matrix, the interior residual is
    [lambda * exp(u_i)]: with three or more grid points and [lambda <> 0]
    no coefficient vector makes the residual zero. *)
Theorem residual_alpha_1_no_root (x alpha : vec) (gamma lam : R)
    (K D : mat) :
  build_kernel_matrices Gamma x 1 gamma = ok (K, D) ->
  (3 <= length x)%nat ->
  lam <> 0 ->
  lssvr_bratu_residual alpha K D lam (length x) <> ok (zeros (length x)).
Proof.
  intros HB HN Hlam.
  rewrite build_kernel_matrices_ok, D_alpha_K_values_alpha_1 in HB by lra.
  inversion HB; subst K D.
  destruct (Nat.eq_dec (length alpha) (length x)) as [Ha|Ha].
  - rewrite residual_ok;
      [| lia | exact Ha | apply shape_pairwise | apply shape_zeros].
    intros E. inversion E as [E'].
    assert (E1 : nth_error (residual_values alpha (pairwise x x gamma)
                              (repeat (zeros (length x)) (length x)) lam
                              (length x)) 1 = Some 0).
    { rewrite E'. apply nth_error_zeros. lia. }
    rewrite nth_error_residual_values in E1 by lia.
    destruct (Nat.eqb_spec 1 0); [lia|].
    destruct (Nat.eqb_spec 1 (length x - 1)); [lia|].
    simpl orb in E1. cbv iota in E1. inversion E1 as [E2].
    unfold matvec_entry at 1 in E2.
    rewrite nth_repeat_row, dot_zeros_l in E2 by lia.
    assert (0 < exp (matvec_entry (pairwise x x gamma) alpha 1))
      by apply exp_pos.
    nra.
  - rewrite residual_wrong_length_helper; [discriminate | lia | | exact Ha].
    apply shape_pairwise.
Qed.

End Residual_further.

(** ** The predictor *)

Lemma dot_lin_comb (a b : R) :
  forall r u v : vec, length u = length v ->
    dot r (lin_comb a u b v) = a * dot r u + b * dot r v.
Proof.
  induction r as [|x r IH]; intros [|y u] [|z v] H; simpl in *;
    try discriminate; try lra.
  rewrite IH by lia. ring.
Qed.

Lemma abs_sum_pos (a : vec) : 0 <= abs_sum a.
Proof.
  induction a as [|y a IH]; simpl; [lra|].
  assert (H := Rabs_pos y). lra.
Qed.

Lemma dot_bounded (g : R -> R) :
  (forall t, 0 < g t <= 1) ->
  forall xs a : vec, Rabs (dot (map g xs) a) <= abs_sum a.
Proof.
  intros Hg. induction xs as [|x xs IH]; intros [|y a]; simpl.
  - rewrite Rabs_R0. lra.
  - rewrite Rabs_R0. assert (H := Rabs_pos y).
    assert (H' := abs_sum_pos a). lra.
  - rewrite Rabs_R0. lra.
  - eapply Rle_trans; [apply Rabs_triang|].
    apply Rplus_le_compat; [|apply IH].
    rewrite Rabs_mult. rewrite (Rabs_pos_eq (g x)) by (left; apply Hg).
    assert (H1 := Hg x). assert (H2 := Rabs_pos y). nra.
Qed.

Lemma lssvr_predict_ok (x_eval x_colloc alpha : vec) (gamma : R) :
  length alpha = length x_colloc ->
  lssvr_predict x_eval x_colloc alpha gamma =
  ok (map (expansion x_colloc alpha gamma) x_eval).
Proof.
  intros Ha. unfold lssvr_predict. cbv zeta.
  rewrite (matvec_ok (length x_eval) (length x_colloc))
    by (auto using shape_pairwise).
  f_equal. unfold pairwise. rewrite map_map. reflexivity.
Qed.

(** With as many coefficients as collocation points the predictor returns
    one value per evaluation point, the kernel expansion
    [sum_i alpha[i] * kernel(x, x_colloc[i])] at that point. *)
Theorem lssvr_predict_values (x_eval x_colloc alpha : vec) (gamma : R) :
  length alpha = length x_colloc ->
  exists u,
    lssvr_predict x_eval x_colloc alpha gamma = ok u /\
    length u = length x_eval /\
    forall j, (j < length x_eval)%nat ->
      nth_error u j =
      Some (dot (map (fun xi => rbf_kernel (nth j x_eval 0) xi gamma)
                     x_colloc)
                alpha).
Proof.
  intros Ha. exists (map (expansion x_colloc alpha gamma) x_eval).
  split; [now apply lssvr_predict_ok|].
  split; [apply length_map|].
  intros j Hj. rewrite nth_error_map, (nth_error_nth' _ 0) by lia.
  reflexivity.
Qed.

(** With at least one evaluation point, a coefficient vector whose length
    differs from the number of collocation points raises [ValueError]. *)
Theorem lssvr_predict_wrong_length_raises (x_eval x_colloc alpha : vec)
    (gamma : R) :
  x_eval <> [] ->
  length alpha <> length x_colloc ->
  lssvr_predict x_eval x_colloc alpha gamma = raise ValueError.
Proof.
  intros He Ha. unfold lssvr_predict, matvec, pairwise. cbv zeta.
  destruct x_eval as [|x0 xe]; [congruence|].
  simpl forallb. rewrite length_map.
  destruct (Nat.eqb_spec (length x_colloc) (length alpha)); [congruence|].
  reflexivity.
Qed.

(** The predictor is linear in the coefficients. *)
Theorem lssvr_predict_linear (a b : R) (x_eval x_colloc alpha beta : vec)
    (gamma : R) :
  length alpha = length x_colloc ->
  length beta = length x_colloc ->
  lssvr_predict x_eval x_colloc (lin_comb a alpha b beta) gamma =
  (u <- lssvr_predict x_eval x_colloc alpha gamma ;;
   v <- lssvr_predict x_eval x_colloc beta gamma ;;
   ok (lin_comb a u b v)).
Proof.
  intros Ha Hb.
  rewrite !lssvr_predict_ok
    by (rewrite ?length_lin_comb; congruence).
  cbn [bind]. f_equal.
  induction x_eval as [|x xe IH]; simpl; [reflexivity|].
  rewrite IH. f_equal. unfold expansion.
  apply dot_lin_comb. congruence.
Qed.

(** For [gamma >= 0] every predicted value is bounded in absolute value by
    the sum of the absolute values of the coefficients, at every
    evaluation point. *)
Theorem lssvr_predict_bounded (x_eval x_colloc alpha : vec) (gamma : R) :
  0 <= gamma ->
  length alpha = length x_colloc ->
  exists u,
    lssvr_predict x_eval x_colloc alpha gamma = ok u /\
    Forall (fun v => Rabs v <= abs_sum alpha) u.
Proof.
  intros Hg Ha. exists (map (expansion x_colloc alpha gamma) x_eval).
  split; [now apply lssvr_predict_ok|].
  apply Forall_forall. intros v Hv.
  apply in_map_iff in Hv. destruct Hv as (x & <- & _).
  unfold expansion. apply dot_bounded.
  intros t. destruct (rbf_kernel_facts x t gamma) as (_ & Hp & Hle & _).
  split; [exact Hp | now apply Hle].
Qed.

Section Predict_further.

Variable Gamma : R -> R.

(** Evaluated at the collocation points with the same [gamma], the predictor
    returns the product of the kernel matrix of the builder with the
    coefficients. *)
Lemma lssvr_predict_on_grid (x alpha : vec) (alpha_param gamma : R)
    (K D : mat) :
  build_kernel_matrices Gamma x alpha_param gamma = ok (K, D) ->
  lssvr_predict x x alpha gamma = matvec K alpha.
Proof.
  intros HB. apply build_kernel_matrices_K in HB. subst K. reflexivity.
Qed.

End Predict_further.

(** ** The solver driver *)

Section Solver_further.

Variable Gamma : R -> R.
Variable infodict : Type.
Variable fsolve :
  (vec -> result vec) -> vec -> result (vec * infodict * Z * string).

(** An explicit grid overrides [N]: the argument [N] has no influence on
    the outcome. *)
Lemma solve_explicit_grid_ignores_N (t0 t1 alpha_param lam : R)
    (N N' : nat) (gamma : R) (g : vec) :
  solve_lssvr_bratu Gamma infodict fsolve t0 t1 alpha_param lam N gamma
    (Some g) =
  solve_lssvr_bratu Gamma infodict fsolve t0 t1 alpha_param lam N' gamma
    (Some g).
Proof. rewrite !solve_lssvr_bratu_unfold. reflexivity. Qed.

(** An exception raised by the solver (for instance one raised by the
    residual) propagates out of the solve entry point. *)
Lemma solve_propagates_solver_exception (t0 t1 alpha_param lam : R)
    (N : nat) (gamma : R) (x_grid : option vec) (K D : mat) (e : exn) :
  build_kernel_matrices Gamma (solve_grid N x_grid) alpha_param gamma
    = ok (K, D) ->
  fsolve (fun a => lssvr_bratu_residual a K D lam
                     (length (solve_grid N x_grid)))
         (zeros (length (solve_grid N x_grid))) = raise e ->
  solve_lssvr_bratu Gamma infodict fsolve t0 t1 alpha_param lam N gamma
    x_grid = raise e.
Proof.
  intros HB HF. rewrite solve_lssvr_bratu_unfold. cbv zeta.
  rewrite HB. cbn [bind fst snd]. now rewrite HF.
Qed.

(** With an order above 1 and a grid of at least two points the solve entry
    point raises [ZeroDivisionError] from the kernel matrix builder, before
    the solver is called. *)
Theorem solve_alpha_above_1_raises (t0 t1 alpha_param lam : R) (N : nat)
    (gamma : R) (x_grid : option vec) :
  1 < alpha_param ->
  (2 <= length (solve_grid N x_grid))%nat ->
  solve_lssvr_bratu Gamma infodict fsolve t0 t1 alpha_param lam N gamma
    x_grid = raise ZeroDivisionError.
Proof.
  intros Ha Hn. rewrite solve_lssvr_bratu_unfold. cbv zeta.
  now rewrite build_kernel_matrices_above_1.
Qed.

(** When the solver reports convergence ([ier = 1]) nothing is printed and
    the five outputs are returned. *)
Lemma solve_converged_silent (t0 t1 alpha_param lam : R) (N : nat)
    (gamma : R) (x_grid : option vec) (K D : mat) (alpha : vec)
    (info : infodict) (msg : string) :
  build_kernel_matrices Gamma (solve_grid N x_grid) alpha_param gamma
    = ok (K, D) ->
  fsolve (fun a => lssvr_bratu_residual a K D lam
                     (length (solve_grid N x_grid)))
         (zeros (length (solve_grid N x_grid)))
    = ok (alpha, info, 1%Z, msg) ->
  solve_lssvr_bratu Gamma infodict fsolve t0 t1 alpha_param lam N gamma x_grid =
  ok (Solution (solve_grid N x_grid) alpha K D (t1 - t0), []).
Proof.
  intros HB HF. rewrite solve_lssvr_bratu_unfold. cbv zeta.
  rewrite HB. cbn [bind fst snd]. rewrite HF. reflexivity.
Qed.

(** Without an explicit grid and for [N >= 2], a returned grid has [N]
    points [i / (N - 1)], from [0] to [1]. *)
Theorem solve_default_grid (t0 t1 alpha_param lam : R) (N : nat)
    (gamma : R) (s : solution) (printed : list string) :
  (2 <= N)%nat ->
  solve_lssvr_bratu Gamma infodict fsolve t0 t1 alpha_param lam N gamma
    None = ok (s, printed) ->
  length (sol_x_grid s) = N /\
  nth_error (sol_x_grid s) 0 = Some 0 /\
  nth_error (sol_x_grid s) (N - 1) = Some 1 /\
  forall i, (i < N)%nat ->
    nth_error (sol_x_grid s) i = Some (INR i / (INR N - 1)).
Proof.
  intros HN. rewrite solve_lssvr_bratu_unfold. cbv zeta.
  change (solve_grid N None) with (linspace 0 1 N).
  destruct (build_kernel_matrices Gamma _ alpha_param gamma) as [[K D]|e];
    cbn [bind fst snd]; [|discriminate].
  destruct (fsolve _ _) as [[[[a info] ier] msg]|e]; cbn [bind];
    [|discriminate].
  unfold solve_finish. intros E. inversion E; subst s printed. simpl.
  split; [apply length_linspace|].
  split; [now apply linspace_ends|]. split; [now apply linspace_ends|].
  intros i Hi.
  rewrite (nth_error_nth' _ 0) by (rewrite length_linspace; lia).
  f_equal. rewrite nth_linspace by lia. lra.
Qed.

End Solver_further.

(** ** The reference solution *)

Lemma cosh_pos (x : R) : 0 < cosh x.
Proof.
  unfold cosh. assert (H1 := exp_pos x). assert (H2 := exp_pos (- x)). lra.
Qed.

Lemma cosh_opp (x : R) : cosh (- x) = cosh x.
Proof. unfold cosh. rewrite Ropp_involutive. lra. Qed.

Lemma cosh_Rabs (x : R) : cosh (Rabs x) = cosh x.
Proof.
  unfold Rabs. destruct (Rcase_abs x); [apply cosh_opp | reflexivity].
Qed.

Lemma cosh_le_nonneg (a b : R) : 0 <= a <= b -> cosh a <= cosh b.
Proof.
  intros [Ha Hab]. unfold cosh.
  assert (Hp : 1 <= exp a).
  { destruct Ha as [Ha| <-]; [|rewrite exp_0; lra].
    apply exp_increasing in Ha. rewrite exp_0 in Ha. lra. }
  assert (Hq : exp a <= exp b).
  { destruct Hab as [Hab| <-]; [|lra]. apply exp_increasing in Hab. lra. }
  assert (Ep : exp a * exp (- a) = 1)
    by (rewrite <- exp_plus, Rplus_opp_r; apply exp_0).
  assert (Eq : exp b * exp (- b) = 1)
    by (rewrite <- exp_plus, Rplus_opp_r; apply exp_0).
  assert (Hip := exp_pos (- a)). assert (Hiq := exp_pos (- b)).
  assert (Hip1 : exp (- a) <= 1) by nra.
  assert (Hiq1 : exp (- b) <= 1) by nra.
  assert (Ed : exp (- a) - exp (- b) =
               (exp b - exp a) * (exp (- a) * exp (- b))) by nra.
  assert (Hprod : exp (- a) * exp (- b) <= 1) by nra.
  assert ((exp b - exp a) * (exp (- a) * exp (- b)) <= exp b - exp a) by nra.
  lra.
Qed.

Lemma cosh_le_sqr (a b : R) : a * a <= b * b -> cosh a <= cosh b.
Proof.
  intros H. rewrite <- (cosh_Rabs a), <- (cosh_Rabs b).
  apply cosh_le_nonneg. split; [apply Rabs_pos|].
  apply Rsqr_le_abs_0. exact H.
Qed.

Lemma exact_curve_facts (th : R) :
  exact_curve th 0 = 0 /\
  exact_curve th 1 = 0 /\
  (forall x, exact_curve th (1 - x) = exact_curve th x) /\
  (forall x, 0 <= x <= 1 ->
     0 <= exact_curve th x <= exact_curve th (1 / 2)).
Proof.
  assert (Hc := cosh_pos (th / 4)).
  assert (Hsym : forall x, exact_curve th (1 - x) = exact_curve th x).
  { intros x. unfold exact_curve. do 3 f_equal.
    rewrite <- (cosh_opp ((x - 1 / 2) * th / 2)). f_equal. lra. }
  assert (H0 : exact_curve th 0 = 0).
  { unfold exact_curve.
    replace ((0 - 1 / 2) * th / 2) with (- (th / 4)) by lra.
    rewrite cosh_opp. unfold Rdiv at 1. rewrite Rinv_r by lra.
    rewrite ln_1. lra. }
  split; [exact H0|]. split.
  - rewrite <- (Hsym 0) in H0. now replace (1 - 0) with 1 in H0 by lra.
  - split; [exact Hsym|]. intros x Hx. unfold exact_curve.
    assert (Hcx := cosh_pos ((x - 1 / 2) * th / 2)).
    assert (Hle : cosh ((x - 1 / 2) * th / 2) <= cosh (th / 4)).
    { apply cosh_le_sqr.
      assert (Hs : (x - 1 / 2) * (x - 1 / 2) <= 1 / 4) by nra.
      assert (Ht := Rle_0_sqr th). unfold Rsqr in Ht.
      replace ((x - 1 / 2) * th / 2 * ((x - 1 / 2) * th / 2))
        with ((x - 1 / 2) * (x - 1 / 2) * (th * th / 4)) by field.
      replace (th / 4 * (th / 4)) with (1 / 4 * (th * th / 4)) by field.
      apply Rmult_le_compat_r; lra. }
    assert (Hge : 1 <= cosh ((x - 1 / 2) * th / 2)).
    { rewrite <- cosh_0. apply cosh_le_sqr. rewrite Rmult_0_l.
      apply Rle_0_sqr. }
    assert (Hr : 0 < cosh ((x - 1 / 2) * th / 2) / cosh (th / 4))
      by (apply Rdiv_lt_0_compat; assumption).
    assert (Hr1 : cosh ((x - 1 / 2) * th / 2) / cosh (th / 4) <= 1).
    { apply (Rmult_le_reg_r (cosh (th / 4))); [exact Hc|].
      unfold Rdiv. rewrite Rmult_assoc, Rinv_l by lra. lra. }
    assert (Hln : ln (cosh ((x - 1 / 2) * th / 2) / cosh (th / 4)) <= 0).
    { destruct Hr1 as [Hlt|Heq].
      - left. rewrite <- ln_1. apply ln_increasing; assumption.
      - rewrite Heq, ln_1. lra. }
    replace ((1 / 2 - 1 / 2) * th / 2) with 0 by lra. rewrite cosh_0.
    assert (Hm : ln (1 / cosh (th / 4))
                 <= ln (cosh ((x - 1 / 2) * th / 2) / cosh (th / 4))).
    { assert (Hd : 1 / cosh (th / 4)
                   <= cosh ((x - 1 / 2) * th / 2) / cosh (th / 4)).
      { unfold Rdiv. apply Rmult_le_compat_r; [|exact Hge].
        left. now apply Rinv_0_lt_compat. }
      destruct Hd as [Hlt|Heq].
      - left. apply ln_increasing; [|exact Hlt].
        apply Rdiv_lt_0_compat; lra.
      - rewrite Heq. lra. }
    lra.
Qed.

Section Reference_further.

Variable fsolve_root : (vec -> result vec) -> vec -> result vec.

Lemma bratu_exact_u_unfold (x : vec) (lam : R) :
  bratu_exact_u fsolve_root x lam =
  (th <- bratu_analytical_theta fsolve_root lam ;;
   ok (map (exact_curve th) x)).
Proof. reflexivity. Qed.

(** The reference curve has one value per point and vanishes at the points
    [0] and [1], whatever shape parameter the root finder returned. *)
Theorem bratu_exact_u_boundary (x : vec) (lam : R) (u : vec) :
  bratu_exact_u fsolve_root x lam = ok u ->
  length u = length x /\
  forall j, (j < length x)%nat ->
    nth j x 0 = 0 \/ nth j x 0 = 1 ->
    nth_error u j = Some 0.
Proof.
  rewrite bratu_exact_u_unfold.
  destruct (bratu_analytical_theta fsolve_root lam) as [th|e];
    cbn [bind]; [|discriminate].
  intros E. inversion E; subst u. split; [apply length_map|].
  intros j Hj Hx. rewrite nth_error_map, (nth_error_nth' _ 0) by lia.
  simpl. f_equal.
  destruct (exact_curve_facts th) as (H0 & H1 & _).
  destruct Hx as [-> | ->]; assumption.
Qed.

(** The reference curve is symmetric about the midpoint of the interval:
    reflecting every point, [x -> 1 - x], does not change the outcome. *)
Theorem bratu_exact_u_symmetric (x : vec) (lam : R) :
  bratu_exact_u fsolve_root (map (fun t => 1 - t) x) lam =
  bratu_exact_u fsolve_root x lam.
Proof.
  rewrite !bratu_exact_u_unfold.
  destruct (bratu_analytical_theta fsolve_root lam) as [th|e];
    cbn [bind]; [|reflexivity].
  f_equal. rewrite map_map. apply map_ext. intros t.
  apply (exact_curve_facts th).
Qed.

(** On points of the unit interval the reference curve is non-negative and
    at most its value at the midpoint, [2 * ln (cosh (theta / 4))]. *)
Theorem bratu_exact_u_range (x : vec) (lam : R) (u : vec) :
  Forall (fun t => 0 <= t <= 1) x ->
  bratu_exact_u fsolve_root x lam = ok u ->
  exists th,
    bratu_analytical_theta fsolve_root lam = ok th /\
    Forall (fun v => 0 <= v <= 2 * ln (cosh (th / 4))) u.
Proof.
  intros Hx. rewrite bratu_exact_u_unfold.
  destruct (bratu_analytical_theta fsolve_root lam) as [th|e];
    cbn [bind]; [|discriminate].
  intros E. inversion E; subst u. exists th. split; [reflexivity|].
  apply Forall_forall. intros v Hv.
  apply in_map_iff in Hv. destruct Hv as (t & <- & Ht).
  rewrite Forall_forall in Hx. specialize (Hx t Ht).
  destruct (exact_curve_facts th) as (_ & _ & _ & Hr).
  specialize (Hr t Hx).
  replace (2 * ln (cosh (th / 4))) with (exact_curve th (1 / 2)); [exact Hr|].
  unfold exact_curve.
  replace ((1 / 2 - 1 / 2) * th / 2) with 0 by lra. rewrite cosh_0.
  unfold Rdiv. rewrite Rmult_1_l, ln_Rinv by apply cosh_pos. lra.
Qed.

End Reference_further.

(** ** The error metrics *)

Lemma dot_self_nonneg (v : vec) : 0 <= dot v v.
Proof.
  induction v as [|x v IH]; simpl; [lra|].
  assert (H := Rle_0_sqr x). unfold Rsqr in H. lra.
Qed.

Lemma dot_self_zero (v : vec) : dot v v = 0 -> v = zeros (length v).
Proof.
  induction v as [|x v IH]; simpl; [reflexivity|]. intros H.
  assert (H1 := Rle_0_sqr x). unfold Rsqr in H1.
  assert (H2 := dot_self_nonneg v).
  assert (Hx : x * x = 0) by lra.
  assert (Hv : dot v v = 0) by lra.
  apply Rmult_integral in Hx.
  unfold zeros in *. simpl. rewrite <- (IH Hv).
  f_equal. destruct Hx; assumption.
Qed.

Lemma length_sub_elementwise :
  forall a b : vec, length a = length b ->
    length (sub_elementwise a b) = length a.
Proof.
  induction a as [|x a IH]; intros [|y b] H; simpl in *; try discriminate;
    auto.
Qed.

Lemma nth_sub_elementwise :
  forall (a b : vec) (j : nat), length a = length b ->
    nth j (sub_elementwise a b) 0 = nth j a 0 - nth j b 0.
Proof.
  induction a as [|x a IH]; intros [|y b] [|j] H; simpl in *;
    try discriminate; try lra.
  apply IH. lia.
Qed.

Lemma sub_elementwise_zero :
  forall a b : vec, length a = length b ->
    sub_elementwise a b = zeros (length a) -> a = b.
Proof.
  induction a as [|x a IH]; intros [|y b] H E; simpl in *;
    try discriminate; [reflexivity|].
  inversion E as [[E1 E2]]. f_equal; [lra|].
  apply IH; [lia|]. rewrite E2, E1. reflexivity.
Qed.

Lemma sub_elementwise_self (a : vec) :
  sub_elementwise a a = zeros (length a).
Proof.
  induction a as [|x a IH]; simpl; [reflexivity|].
  unfold zeros in *. simpl. rewrite IH. f_equal. lra.
Qed.

Lemma dot_zeros_self (n : nat) : dot (zeros n) (zeros n) = 0.
Proof. apply dot_zeros_l. Qed.

Lemma broadcast_sub_same_length (a b : vec) :
  length a = length b -> broadcast_sub a b = ok (sub_elementwise a b).
Proof.
  intros H. unfold broadcast_sub. rewrite H, Nat.eqb_refl. reflexivity.
Qed.

Lemma broadcast_sub_mismatch (a b : vec) :
  length a <> length b -> length a <> 1%nat -> length b <> 1%nat ->
  broadcast_sub a b = raise ValueError.
Proof.
  intros H Ha Hb. unfold broadcast_sub.
  destruct (Nat.eqb_spec (length a) (length b)); [contradiction|].
  destruct a as [|x [|x' a]], b as [|y [|y' b]]; simpl in *;
    try reflexivity; congruence.
Qed.

Lemma fold_left_Rmax_ge (l : vec) (x : R) : x <= fold_left Rmax l x.
Proof.
  revert x; induction l as [|y l IH]; intros x; simpl; [lra|].
  eapply Rle_trans; [apply (Rmax_l x y) | apply IH].
Qed.

Lemma fold_left_Rmax_upper (l : vec) (x : R) (j : nat) :
  (j < length l)%nat -> nth j l 0 <= fold_left Rmax l x.
Proof.
  revert x j; induction l as [|y l IH]; intros x [|j] H; simpl in *;
    try lia.
  - eapply Rle_trans; [apply (Rmax_r x y) | apply fold_left_Rmax_ge].
  - apply IH. lia.
Qed.

Lemma fold_left_Rmax_attained (l : vec) (x : R) :
  fold_left Rmax l x = x \/
  exists j, (j < length l)%nat /\ fold_left Rmax l x = nth j l 0.
Proof.
  revert x; induction l as [|y l IH]; intros x; simpl; [now left|].
  destruct (IH (Rmax x y)) as [E|(j & Hj & E)].
  - rewrite E. unfold Rmax. destruct (Rle_dec x y).
    + right. exists 0%nat. split; [lia | reflexivity].
    + now left.
  - right. exists (S j). split; [lia | exact E].
Qed.

(** For arrays of equal length the relative error is defined, never
    negative, and zero exactly when the two arrays are equal. *)
Theorem rel_l2_error_zero_iff (u_pred u_exact : vec) :
  length u_pred = length u_exact ->
  exists r,
    rel_l2_error u_pred u_exact = ok r /\
    0 <= r /\
    (r = 0 <-> u_pred = u_exact).
Proof.
  intros HL. unfold rel_l2_error.
  rewrite broadcast_sub_same_length by exact HL. cbn [bind].
  eexists. split; [reflexivity|].
  set (d := sub_elementwise u_pred u_exact).
  assert (Hden : 0 < norm u_exact + / 10 ^ 14).
  { assert (H1 := sqrt_pos (dot u_exact u_exact)).
    assert (H2 : 0 < / 10 ^ 14) by (apply Rinv_0_lt_compat; lra).
    unfold norm. lra. }
  assert (Hn : 0 <= norm d) by apply sqrt_pos.
  split.
  - apply Rmult_le_pos; [exact Hn|]. left. now apply Rinv_0_lt_compat.
  - split.
    + intros E.
      assert (E0 : norm d = 0).
      { unfold Rdiv in E. apply Rmult_integral in E.
        destruct E as [E|E]; [exact E|].
        apply Rinv_0_lt_compat in Hden. lra. }
      unfold norm in E0. apply sqrt_eq_0 in E0; [|apply dot_self_nonneg].
      apply dot_self_zero in E0. unfold d in E0.
      rewrite length_sub_elementwise in E0 by exact HL.
      now apply sub_elementwise_zero.
    + intros ->. unfold d, norm.
      rewrite sub_elementwise_self, dot_zeros_self, sqrt_0.
      unfold Rdiv. apply Rmult_0_l.
Qed.

(** For non-empty arrays of equal length the maximum error bounds every
    pointwise error and is one of them. *)
Theorem max_error_is_maximum (u_pred u_exact : vec) :
  length u_pred = length u_exact ->
  u_pred <> [] ->
  exists m,
    max_error u_pred u_exact = ok m /\
    (forall j, (j < length u_pred)%nat ->
       Rabs (nth j u_pred 0 - nth j u_exact 0) <= m) /\
    (exists j, (j < length u_pred)%nat /\
       m = Rabs (nth j u_pred 0 - nth j u_exact 0)).
Proof.
  intros HL Hne. unfold max_error.
  rewrite broadcast_sub_same_length by exact HL. cbn [bind].
  assert (Hnth : forall j, (j < length u_pred)%nat ->
            nth j (map Rabs (sub_elementwise u_pred u_exact)) 0 =
            Rabs (nth j u_pred 0 - nth j u_exact 0)).
  { intros j Hj. rewrite <- nth_sub_elementwise by exact HL.
    rewrite (nth_indep _ 0 (Rabs 0))
      by (rewrite length_map, length_sub_elementwise; auto).
    apply map_nth. }
  assert (Hlen : length (map Rabs (sub_elementwise u_pred u_exact))
                 = length u_pred)
    by (rewrite length_map; now apply length_sub_elementwise).
  destruct (map Rabs (sub_elementwise u_pred u_exact)) as [|x l] eqn:El.
  - destruct u_pred; [congruence | discriminate].
  - simpl in Hlen. unfold np_max. eexists. split; [reflexivity|]. split.
    + intros [|j] Hj; rewrite <- Hnth by lia; simpl.
      * apply fold_left_Rmax_ge.
      * apply fold_left_Rmax_upper. lia.
    + destruct (fold_left_Rmax_attained l x) as [E|(j & Hj & E)].
      * exists 0%nat. split; [lia|]. rewrite <- Hnth by lia. exact E.
      * exists (S j). split; [lia|]. rewrite <- Hnth by lia. exact E.
Qed.

(** Arrays of different lengths, neither of length one, make both metrics
    raise [ValueError]. *)
Theorem error_metrics_shape_mismatch (u_pred u_exact : vec) :
  length u_pred <> length u_exact ->
  length u_pred <> 1%nat ->
  length u_exact <> 1%nat ->
  rel_l2_error u_pred u_exact = raise ValueError /\
  max_error u_pred u_exact = raise ValueError.
Proof.
  intros H Ha Hb. unfold rel_l2_error, max_error.
  rewrite broadcast_sub_mismatch by assumption. split; reflexivity.
Qed.

Lemma map_Rabs_sub_sym :
  forall a b : vec,
    map Rabs (sub_elementwise a b) = map Rabs (sub_elementwise b a).
Proof.
  induction a as [|x a IH]; intros [|y b]; simpl; try reflexivity.
  now rewrite IH, Rabs_minus_sym.
Qed.

(** The maximum error does not depend on the order of its two arguments,
    also when one of them is broadcast or when it raises. *)
Theorem max_error_symmetric (u_pred u_exact : vec) :
  max_error u_pred u_exact = max_error u_exact u_pred.
Proof.
  unfold max_error, broadcast_sub.
  rewrite (Nat.eqb_sym (length u_exact) (length u_pred)).
  destruct (Nat.eqb_spec (length u_pred) (length u_exact)) as [E|NE].
  - cbn [bind]. now rewrite map_Rabs_sub_sym.
  - assert (Hmap : forall c (l : vec),
              map Rabs (map (fun y => c - y) l) =
              map Rabs (map (fun x => x - c) l)).
    { intros c l. rewrite !map_map. apply map_ext. intros y.
      apply Rabs_minus_sym. }
    destruct u_pred as [|x [|x' a]], u_exact as [|y [|y' b]];
      simpl in NE; try congruence; cbn [bind];
      try reflexivity; try (now rewrite Hmap); try (now rewrite <- Hmap).
Qed.

(** ** Instances of the further properties *)

Lemma L1_caputo_two_points_alpha_1 :
  L1_caputo gamma_at_1 [0; 1] 1 None = ok [0; 0].
Proof. rewrite L1_caputo_alpha_1. simpl. reflexivity. Qed.

Lemma L1_caputo_three_points_alpha_1 (u0 u1 u2 : R) :
  L1_caputo gamma_at_1 [u0; u1; u2] 1 None = ok [0; 0; 0].
Proof. rewrite L1_caputo_alpha_1. simpl. reflexivity. Qed.

Lemma build_two_points :
  build_kernel_matrices gamma_at_1 [0; 1] 1 10 =
  ok (pairwise [0; 1] [0; 1] 10, D_alpha_K_values gamma_at_1 [0; 1] 1 10).
Proof. apply build_kernel_matrices_ok. lra. Qed.

Lemma build_three_points :
  build_kernel_matrices gamma_at_1 [0; 1 / 2; 1] 1 10 =
  ok (pairwise [0; 1 / 2; 1] [0; 1 / 2; 1] 10,
      D_alpha_K_values gamma_at_1 [0; 1 / 2; 1] 1 10).
Proof. apply build_kernel_matrices_ok. lra. Qed.

Lemma shape_identity_3 :
  shape 3 3 [[1; 0; 0]; [0; 1; 0]; [0; 0; 1]].
Proof. split; [reflexivity | repeat constructor]. Qed.

Lemma shape_zero_3 :
  shape 3 3 [[0; 0; 0]; [0; 0; 0]; [0; 0; 0]].
Proof. split; [reflexivity | repeat constructor]. Qed.

Lemma solve_stub_two_points :
  solve_lssvr_bratu gamma_at_1 unit (fsolve_stub 1 "converged")
    0 7 1 1 2 10 None =
  ok (Solution (linspace 0 1 2) (zeros 2)
        (pairwise (linspace 0 1 2) (linspace 0 1 2) 10)
        (D_alpha_K_values gamma_at_1 (linspace 0 1 2) 1 10)
        (7 - 0),
      []).
Proof.
  rewrite solve_lssvr_bratu_unfold. cbv zeta.
  change (solve_grid 2 None) with (linspace 0 1 2).
  rewrite build_kernel_matrices_ok by lra. reflexivity.
Qed.

Lemma L1_caputo_alpha_above_1_raises_witness :
  1 < 2 /\
  (2 <= length [0; 1])%nat /\
  (None : option (list R)) <> Some [] /\
  L1_caputo gamma_at_1 [0; 1] 2 None = raise ZeroDivisionError.
Proof.
  assert (H1 : 1 < 2) by lra.
  assert (H2 : (2 <= length [0; 1])%nat) by (simpl; lia).
  assert (H3 : (None : option (list R)) <> Some []) by discriminate.
  repeat (split; [assumption|]).
  exact (L1_caputo_alpha_above_1_raises gamma_at_1 [0; 1] 2 None H1 H2 H3).
Defined.

Lemma L1_caputo_length_witness :
  L1_caputo gamma_at_1 [0; 1] 1 None = ok [0; 0] /\
  length [0; 0] = length [0; 1] /\
  ((1 <= length [0; 1])%nat -> nth_error [0; 0] 0 = Some 0).
Proof.
  split; [exact L1_caputo_two_points_alpha_1|].
  exact (L1_caputo_length gamma_at_1 [0; 1] 1 None [0; 0]
           L1_caputo_two_points_alpha_1).
Defined.

Lemma L1_caputo_linear_witness :
  1 <= 1 /\
  length [0; 1] = length [1; 0] /\
  L1_caputo gamma_at_1 (lin_comb 2 [0; 1] 3 [1; 0]) 1 None =
  (Du <- L1_caputo gamma_at_1 [0; 1] 1 None ;;
   Dv <- L1_caputo gamma_at_1 [1; 0] 1 None ;;
   ok (lin_comb 2 Du 3 Dv)).
Proof.
  assert (H1 : 1 <= 1) by lra.
  assert (H2 : length [0; 1] = length [1; 0]) by reflexivity.
  repeat (split; [assumption|]).
  exact (L1_caputo_linear gamma_at_1 2 3 [0; 1] [1; 0] 1 None H1 H2).
Defined.

Lemma L1_caputo_causal_witness :
  1 <= 1 /\
  length [0; 1; 2] = length [0; 1; 5] /\
  L1_caputo gamma_at_1 [0; 1; 2] 1 None = ok [0; 0; 0] /\
  L1_caputo gamma_at_1 [0; 1; 5] 1 None = ok [0; 0; 0] /\
  (forall j, (j <= 1)%nat -> nth j [0; 1; 2] 0 = nth j [0; 1; 5] 0) /\
  nth_error [0; 0; 0] 1 = nth_error [0; 0; 0] 1.
Proof.
  assert (H1 : 1 <= 1) by lra.
  assert (H2 : length [0; 1; 2] = length [0; 1; 5]) by reflexivity.
  assert (H3 := L1_caputo_three_points_alpha_1 0 1 2).
  assert (H4 := L1_caputo_three_points_alpha_1 0 1 5).
  assert (H5 : forall j, (j <= 1)%nat ->
                 nth j [0; 1; 2] 0 = nth j [0; 1; 5] 0).
  { intros [|[|j]] Hj; try reflexivity. lia. }
  repeat (split; [assumption|]).
  exact (L1_caputo_causal gamma_at_1 [0; 1; 2] [0; 1; 5] 1 None
           [0; 0; 0] [0; 0; 0] 1 H1 H2 H3 H4 H5).
Defined.

Lemma L1_caputo_linear_samples_witness :
  (2 <= 2)%nat /\
  0 < 1 / 2 < 1 /\
  0 < 1 /\
  uniform_grid 2 1 None /\
  exists D,
    L1_caputo gamma_at_3_2 (map (fun j => 0 + 1 * (INR j * 1)) (seq 0 2))
      (1 / 2) None = ok D /\
    forall i, (1 <= i < 2)%nat ->
      nth_error D i =
      Some (1 * Rpower (INR i * 1) (1 - 1 / 2) / gamma_at_3_2 (2 - 1 / 2)).
Proof.
  assert (H1 : (2 <= 2)%nat) by lia.
  assert (H2 : 0 < 1 / 2 < 1) by lra.
  assert (H3 : 0 < 1) by lra.
  assert (H4 : uniform_grid 2 1 None) by (simpl; lra).
  repeat (split; [assumption|]).
  exact (L1_caputo_linear_samples gamma_at_3_2 2 0 1 (1 / 2) 1 None
           H1 H2 H3 H4).
Defined.

Lemma L1_caputo_default_grid_witness :
  (2 <= length [0; 1])%nat /\
  L1_caputo gamma_at_1 [0; 1] 1 (Some (linspace 0 1 (length [0; 1]))) =
  L1_caputo gamma_at_1 [0; 1] 1 None.
Proof.
  assert (H1 : (2 <= length [0; 1])%nat) by (simpl; lia).
  split; [assumption|].
  exact (L1_caputo_default_grid gamma_at_1 [0; 1] 1 H1).
Defined.

Lemma build_kernel_matrices_columns_witness :
  0 < 1 <= 1 /\
  exists K D,
    build_kernel_matrices gamma_at_1 [0; 1] 1 10 = ok (K, D) /\
    shape (length [0; 1]) (length [0; 1]) D /\
    forall i, (i < length [0; 1])%nat ->
      L1_caputo gamma_at_1 (column K i) 1 (Some [0; 1]) = ok (column D i) /\
      entry D 0 i = 0.
Proof.
  assert (H1 : 0 < 1 <= 1) by lra.
  split; [assumption|].
  exact (build_kernel_matrices_columns gamma_at_1 [0; 1] 1 10 H1).
Defined.

Lemma build_kernel_matrices_alpha_above_1_raises_witness :
  1 < 2 /\
  (2 <= length [0; 1])%nat /\
  build_kernel_matrices gamma_at_1 [0; 1] 2 10 = raise ZeroDivisionError.
Proof.
  assert (H1 : 1 < 2) by lra.
  assert (H2 : (2 <= length [0; 1])%nat) by (simpl; lia).
  repeat (split; [assumption|]).
  exact (build_kernel_matrices_alpha_above_1_raises gamma_at_1 [0; 1] 2 10
           H1 H2).
Defined.

Lemma kernel_matrix_off_diagonal_witness :
  0 < 10 /\
  build_kernel_matrices gamma_at_1 [0; 1] 1 10 =
    ok (pairwise [0; 1] [0; 1] 10, D_alpha_K_values gamma_at_1 [0; 1] 1 10) /\
  (0 < length [0; 1])%nat /\
  (1 < length [0; 1])%nat /\
  entry (pairwise [0; 1] [0; 1] 10) 0 1 <= 1 /\
  (entry (pairwise [0; 1] [0; 1] 10) 0 1 = 1 <->
   nth 0 [0; 1] 0 = nth 1 [0; 1] 0).
Proof.
  assert (H1 : 0 < 10) by lra.
  assert (H2 := build_two_points).
  assert (H3 : (0 < length [0; 1])%nat) by (simpl; lia).
  assert (H4 : (1 < length [0; 1])%nat) by (simpl; lia).
  repeat (split; [assumption|]).
  exact (kernel_matrix_off_diagonal gamma_at_1 [0; 1] 1 10 _ _ 0 1
           H1 H2 H3 H4).
Defined.

Lemma residual_wrong_length_raises_witness :
  (1 <= 3)%nat /\
  shape 3 3 [[1; 0; 0]; [0; 1; 0]; [0; 0; 1]] /\
  length [0; 0] <> 3%nat /\
  lssvr_bratu_residual [0; 0] [[1; 0; 0]; [0; 1; 0]; [0; 0; 1]]
    [[0; 0; 0]; [0; 0; 0]; [0; 0; 0]] 1 3 = raise ValueError.
Proof.
  assert (H1 : (1 <= 3)%nat) by lia.
  assert (H2 := shape_identity_3).
  assert (H3 : length [0; 0] <> 3%nat) by (simpl; lia).
  repeat (split; [assumption|]).
  exact (residual_wrong_length_raises [0; 0] _
           [[0; 0; 0]; [0; 0; 0]; [0; 0; 0]] 1 3 H1 H2 H3).
Defined.

Lemma residual_at_zero_witness :
  (2 <= 3)%nat /\
  shape 3 3 [[1; 0; 0]; [0; 1; 0]; [0; 0; 1]] /\
  shape 3 3 [[0; 0; 0]; [0; 0; 0]; [0; 0; 0]] /\
  exists F,
    lssvr_bratu_residual (zeros 3) [[1; 0; 0]; [0; 1; 0]; [0; 0; 1]]
      [[0; 0; 0]; [0; 0; 0]; [0; 0; 0]] 4 3 = ok F /\
    length F = 3%nat /\
    nth_error F 0 = Some 0 /\
    nth_error F (3 - 1) = Some 0 /\
    (forall i, (1 <= i <= 3 - 2)%nat -> nth_error F i = Some 4) /\
    (4 = 0 -> F = zeros 3).
Proof.
  assert (H1 : (2 <= 3)%nat) by lia.
  assert (H2 := shape_identity_3).
  assert (H3 := shape_zero_3).
  repeat (split; [assumption|]).
  exact (residual_at_zero _ _ 4 3 H1 H2 H3).
Defined.

Lemma residual_alpha_1_no_root_witness :
  build_kernel_matrices gamma_at_1 [0; 1 / 2; 1] 1 10 =
    ok (pairwise [0; 1 / 2; 1] [0; 1 / 2; 1] 10,
        D_alpha_K_values gamma_at_1 [0; 1 / 2; 1] 1 10) /\
  (3 <= length [0; 1 / 2; 1])%nat /\
  1 <> 0 /\
  lssvr_bratu_residual [0; 0; 0] (pairwise [0; 1 / 2; 1] [0; 1 / 2; 1] 10)
    (D_alpha_K_values gamma_at_1 [0; 1 / 2; 1] 1 10) 1
    (length [0; 1 / 2; 1])
  <> ok (zeros (length [0; 1 / 2; 1])).
Proof.
  assert (H1 := build_three_points).
  assert (H2 : (3 <= length [0; 1 / 2; 1])%nat) by (simpl; lia).
  assert (H3 : 1 <> 0) by lra.
  repeat (split; [assumption|]).
  exact (residual_alpha_1_no_root gamma_at_1 [0; 1 / 2; 1] [0; 0; 0] 10 1
           _ _ H1 H2 H3).
Defined.

Lemma lssvr_predict_values_witness :
  length [1; 2] = length [0; 1] /\
  exists u,
    lssvr_predict [0; 1 / 2; 3] [0; 1] [1; 2] 10 = ok u /\
    length u = length [0; 1 / 2; 3] /\
    forall j, (j < length [0; 1 / 2; 3])%nat ->
      nth_error u j =
      Some (dot (map (fun xi => rbf_kernel (nth j [0; 1 / 2; 3] 0) xi 10)
                     [0; 1])
                [1; 2]).
Proof.
  assert (H1 : length [1; 2] = length [0; 1]) by reflexivity.
  split; [assumption|].
  exact (lssvr_predict_values [0; 1 / 2; 3] [0; 1] [1; 2] 10 H1).
Defined.

Lemma lssvr_predict_wrong_length_raises_witness :
  [1 / 2] <> [] /\
  length [1] <> length [0; 1] /\
  lssvr_predict [1 / 2] [0; 1] [1] 10 = raise ValueError.
Proof.
  assert (H1 : [1 / 2] <> []) by discriminate.
  assert (H2 : length [1] <> length [0; 1]) by (simpl; lia).
  repeat (split; [assumption|]).
  exact (lssvr_predict_wrong_length_raises [1 / 2] [0; 1] [1] 10 H1 H2).
Defined.

Lemma lssvr_predict_linear_witness :
  length [1; 2] = length [0; 1] /\
  length [3; 4] = length [0; 1] /\
  lssvr_predict [1 / 2] [0; 1] (lin_comb 2 [1; 2] 5 [3; 4]) 10 =
  (u <- lssvr_predict [1 / 2] [0; 1] [1; 2] 10 ;;
   v <- lssvr_predict [1 / 2] [0; 1] [3; 4] 10 ;;
   ok (lin_comb 2 u 5 v)).
Proof.
  assert (H1 : length [1; 2] = length [0; 1]) by reflexivity.
  assert (H2 : length [3; 4] = length [0; 1]) by reflexivity.
  repeat (split; [assumption|]).
  exact (lssvr_predict_linear 2 5 [1 / 2] [0; 1] [1; 2] [3; 4] 10 H1 H2).
Defined.

Lemma lssvr_predict_bounded_witness :
  0 <= 10 /\
  length [1; -2] = length [0; 1] /\
  exists u,
    lssvr_predict [1 / 2; 7] [0; 1] [1; -2] 10 = ok u /\
    Forall (fun v => Rabs v <= abs_sum [1; -2]) u.
Proof.
  assert (H1 : 0 <= 10) by lra.
  assert (H2 : length [1; -2] = length [0; 1]) by reflexivity.
  repeat (split; [assumption|]).
  exact (lssvr_predict_bounded [1 / 2; 7] [0; 1] [1; -2] 10 H1 H2).
Defined.

Lemma solve_alpha_above_1_raises_witness :
  1 < 2 /\
  (2 <= length (solve_grid 2 None))%nat /\
  solve_lssvr_bratu gamma_at_1 unit (fsolve_stub 1 "converged")
    0 7 2 1 2 10 None = raise ZeroDivisionError.
Proof.
  assert (H1 : 1 < 2) by lra.
  assert (H2 : (2 <= length (solve_grid 2 None))%nat)
    by (unfold solve_grid; rewrite length_linspace; lia).
  repeat (split; [assumption|]).
  exact (solve_alpha_above_1_raises gamma_at_1 unit
           (fsolve_stub 1 "converged") 0 7 2 1 2 10 None H1 H2).
Defined.

Lemma solve_default_grid_witness :
  (2 <= 2)%nat /\
  solve_lssvr_bratu gamma_at_1 unit (fsolve_stub 1 "converged")
    0 7 1 1 2 10 None =
  ok (Solution (linspace 0 1 2) (zeros 2)
        (pairwise (linspace 0 1 2) (linspace 0 1 2) 10)
        (D_alpha_K_values gamma_at_1 (linspace 0 1 2) 1 10)
        (7 - 0),
      []) /\
  length (linspace 0 1 2) = 2%nat /\
  nth_error (linspace 0 1 2) 0 = Some 0 /\
  nth_error (linspace 0 1 2) (2 - 1) = Some 1 /\
  forall i, (i < 2)%nat ->
    nth_error (linspace 0 1 2) i = Some (INR i / (INR 2 - 1)).
Proof.
  assert (H1 : (2 <= 2)%nat) by lia.
  split; [assumption|]. split; [exact solve_stub_two_points|].
  exact (solve_default_grid gamma_at_1 unit (fsolve_stub 1 "converged")
           0 7 1 1 2 10 _ _ H1 solve_stub_two_points).
Defined.

Lemma bratu_exact_u_boundary_witness :
  bratu_exact_u fsolve_root_stub [0; 1] (2 / (cosh (1 / 2)) ^ 2) =
    ok (map (exact_curve 2) [0; 1]) /\
  length (map (exact_curve 2) [0; 1]) = length [0; 1] /\
  forall j, (j < length [0; 1])%nat ->
    nth j [0; 1] 0 = 0 \/ nth j [0; 1] 0 = 1 ->
    nth_error (map (exact_curve 2) [0; 1]) j = Some 0.
Proof.
  assert (H1 : bratu_exact_u fsolve_root_stub [0; 1] (2 / (cosh (1 / 2)) ^ 2)
               = ok (map (exact_curve 2) [0; 1])) by reflexivity.
  split; [assumption|].
  exact (bratu_exact_u_boundary fsolve_root_stub [0; 1] _ _ H1).
Defined.

Lemma bratu_exact_u_range_witness :
  Forall (fun t => 0 <= t <= 1) [0; 1 / 2; 1] /\
  bratu_exact_u fsolve_root_stub [0; 1 / 2; 1] (2 / (cosh (1 / 2)) ^ 2) =
    ok (map (exact_curve 2) [0; 1 / 2; 1]) /\
  exists th,
    bratu_analytical_theta fsolve_root_stub (2 / (cosh (1 / 2)) ^ 2)
      = ok th /\
    Forall (fun v => 0 <= v <= 2 * ln (cosh (th / 4)))
           (map (exact_curve 2) [0; 1 / 2; 1]).
Proof.
  assert (H1 : Forall (fun t => 0 <= t <= 1) [0; 1 / 2; 1])
    by (repeat constructor; lra).
  assert (H2 : bratu_exact_u fsolve_root_stub [0; 1 / 2; 1]
                 (2 / (cosh (1 / 2)) ^ 2)
               = ok (map (exact_curve 2) [0; 1 / 2; 1])) by reflexivity.
  repeat (split; [assumption|]).
  exact (bratu_exact_u_range fsolve_root_stub [0; 1 / 2; 1] _ _ H1 H2).
Defined.

Lemma rel_l2_error_zero_iff_witness :
  length [1; 2] = length [1; 3] /\
  exists r,
    rel_l2_error [1; 2] [1; 3] = ok r /\
    0 <= r /\
    (r = 0 <-> [1; 2] = [1; 3]).
Proof.
  assert (H1 : length [1; 2] = length [1; 3]) by reflexivity.
  split; [assumption|].
  exact (rel_l2_error_zero_iff [1; 2] [1; 3] H1).
Defined.

Lemma max_error_is_maximum_witness :
  length [1; 2] = length [1; 3] /\
  [1; 2] <> [] /\
  exists m,
    max_error [1; 2] [1; 3] = ok m /\
    (forall j, (j < length [1; 2])%nat ->
       Rabs (nth j [1; 2] 0 - nth j [1; 3] 0) <= m) /\
    (exists j, (j < length [1; 2])%nat /\
       m = Rabs (nth j [1; 2] 0 - nth j [1; 3] 0)).
Proof.
  assert (H1 : length [1; 2] = length [1; 3]) by reflexivity.
  assert (H2 : [1; 2] <> []) by discriminate.
  repeat (split; [assumption|]).
  exact (max_error_is_maximum [1; 2] [1; 3] H1 H2).
Defined.

Lemma error_metrics_shape_mismatch_witness :
  length [1; 2; 3] <> length [1; 2] /\
  length [1; 2; 3] <> 1%nat /\
  length [1; 2] <> 1%nat /\
  rel_l2_error [1; 2; 3] [1; 2] = raise ValueError /\
  max_error [1; 2; 3] [1; 2] = raise ValueError.
Proof.
  assert (H1 : length [1; 2; 3] <> length [1; 2]) by (simpl; lia).
  assert (H2 : length [1; 2; 3] <> 1%nat) by (simpl; lia).
  assert (H3 : length [1; 2] <> 1%nat) by (simpl; lia).
  repeat (split; [assumption|]).
  exact (error_metrics_shape_mismatch [1; 2; 3] [1; 2] H1 H2 H3).
Defined.

(** ** Counterexamples to the claims as stated *)

(** C2 (as stated) fails at [alpha = 1]: on the samples [0, 1] of the
    default two-point grid ([h = 1]) the claimed value of [D[1]] is
    [1 / (Gamma(1) * 1^1) * (1 - 0) * (1^0 - 0^0)], which is [1] with the
    power of the specification, and the operator returns [D[1] = 0]. *)
Lemma L1_caputo_formula_fails_at_alpha_1 :
  ~ exists D,
      L1_caputo gamma_at_1 [0; 1] 1 None = ok D /\
      nth_error D 1 =
      Some (1 / (gamma_at_1 (2 - 1) * Rpower 1 1) *
            sum_f_R0
              (fun j => (nth (j + 1) [0; 1] 0 - nth j [0; 1] 0) *
                        (nat_power (1 - j) (1 - 1) -
                         nat_power (1 - j - 1) (1 - 1)))
              (1 - 1)).
Proof.
  intros (D & E & H).
  rewrite L1_caputo_two_points_alpha_1 in E. inversion E; subst D.
  cbn [nth_error sum_f_R0 Nat.sub Nat.add nth nat_power INR] in H.
  unfold gamma_at_1 in H.
  rewrite Rpower_1 in H by lra.
  replace (1 - 1) with 0 in H by lra.
  rewrite Rpower_O in H by lra.
  inversion H as [H']. lra.
Qed.

(** C6 (as stated) fails for a large [gamma]: on the grid [0, 1] with
    [gamma = 1000] the builder returns the identity for [K], because
    [np.exp(-1000)] underflows to [0.0]; the off-diagonal entries are not
    strictly positive. *)
Lemma kernel_matrix_entry_underflows :
  0 < 1000 /\
  build_kernel_matrices_underflow gamma_at_1 [0; 1] 1 1000 =
    ok ([[1; 0]; [0; 1]], [[0; 0]; [0; 0]]) /\
  ~ 0 < entry [[1; 0]; [0; 1]] 0 1.
Proof.
  split; [lra|]. split.
  - rewrite build_underflow_two_points. do 2 f_equal.
    unfold kernel_matrix_underflow. cbn [map].
    assert (HT := exp_underflow_pos).
    assert (HU : exp_underflow < 1000).
    { unfold exp_underflow. assert (H := ln_2_upper). lra. }
    assert (E0 : forall t, np_exp (- (1000) * (t - t) ^ 2) = 1).
    { intros t. replace (- (1000) * (t - t) ^ 2) with 0 by ring.
      rewrite np_exp_exp by lra. apply exp_0. }
    rewrite !E0.
    rewrite (np_exp_zero (- (1000) * (0 - 1) ^ 2)) by lra.
    rewrite (np_exp_zero (- (1000) * (1 - 0) ^ 2)) by lra.
    reflexivity.
  - unfold entry. simpl. lra.
Qed.

